(** * supagres: a shallow embedding of the query builder of [supagres.py]

    The development follows the layout of the Python module:

    - [Py]    the fragment of Python the module relies on: dynamically typed
              values, ordered dictionaries, truthiness, the built-in
              exceptions raised by [len], [tuple], indexing and unpacking;
    - [sql]   the part of [psycopg2.sql] the module calls: [SQL],
              [Identifier], [Placeholder], [Composed], [format], [join],
              [as_string];
    - [Table] the fluent builder and its five terminal operations;
    - [RPC]   stored-procedure invocation.

    Text is modelled by [string] (one byte per character, i.e. ASCII text);
    integers by [Z]; a Python [dict] by an association list in insertion
    order; an exception by the [Raise] branch of [result].  The database
    driver is an abstract collaborator: a function from the statements seen
    so far and the current statement to either a driver error or the rows
    returned. *)

From Stdlib Require Import String Ascii List ZArith Bool Arith Lia.
Import ListNotations.

Local Open Scope string_scope.
Local Open Scope list_scope.
Local Set Warnings "-register-all".

(* ===================================================================== *)
(** ** Python values, exceptions and the error monad *)
(* ===================================================================== *)

Module Py.

(** A closed model of the values the builder receives as [Any]: [None],
    booleans, integers, strings, tuples and lists.  Objects that can be
    iterated but not sized (iterators, generators), mappings, sets and
    instances of user classes are outside the model. *)
Inductive value : Type :=
| VNone
| VBool (b : bool)
| VInt (n : Z)
| VStr (s : string)
| VTuple (items : list value)
| VList (items : list value).

(** What the driver can report when a statement is executed. *)
Inductive driver_error : Type :=
| QueryCanceled                      (* psycopg2.errors.QueryCanceled *)
| OtherDriverError (sqlstate : string).

(** Exceptions.  The first group is raised implicitly by Python built-ins,
    [TimeoutError] is raised by [Table.execute], [Driver] is a driver
    exception that crosses the module unchanged.  The last three are the
    error kinds of the module's documentation; no statement of
    [supagres.py] raises them. *)
Inductive exn : Type :=
| TypeError
| KeyError (key : string)
| IndexError
| ValueError
| TimeoutError
| Driver (e : driver_error)
| InvalidFilterError
| SchemaMismatchError
| EmptyPayloadError.

Inductive result (A : Type) : Type :=
| Ok (a : A)
| Raise (e : exn).
Arguments Ok {A} a.
Arguments Raise {A} e.

Definition bind {A B} (m : result A) (k : A -> result B) : result B :=
  match m with
  | Ok a => k a
  | Raise e => Raise e
  end.

(** A [for] loop (or comprehension) whose body may raise: the first
    exception aborts the loop. *)
Fixpoint mapM {A B} (f : A -> result B) (l : list A) : result (list B) :=
  match l with
  | [] => Ok []
  | x :: tl =>
      bind (f x) (fun y => bind (mapM f tl) (fun ys => Ok (y :: ys)))
  end.

(** [dict]: keys in insertion order. *)
Definition dict : Type := list (string * value).

Definition keys (d : dict) : list string := map fst d.
Definition values (d : dict) : list value := map snd d.

(** [d[k]] *)
Fixpoint getitem (d : dict) (k : string) : result value :=
  match d with
  | [] => Raise (KeyError k)
  | (k', v) :: tl => if String.eqb k' k then Ok v else getitem tl k
  end.

(** A well-formed dictionary has no repeated key. *)
Definition wf_dict (d : dict) : Prop := NoDup (keys d).

(** Iteration over a value, as performed by [tuple(v)] and
    [list.extend(v)]. *)
Definition chars (s : string) : list value :=
  map (fun c => VStr (String c EmptyString)) (list_ascii_of_string s).

Definition iter (v : value) : result (list value) :=
  match v with
  | VTuple l | VList l => Ok l
  | VStr s => Ok (chars s)
  | VNone | VBool _ | VInt _ => Raise TypeError
  end.

(** [tuple(v)] *)
Definition tuple (v : value) : result value :=
  bind (iter v) (fun l => Ok (VTuple l)).

(** [len(v)] *)
Definition len (v : value) : result nat :=
  match v with
  | VTuple l | VList l => Ok (List.length l)
  | VStr s => Ok (String.length s)
  | VNone | VBool _ | VInt _ => Raise TypeError
  end.

(** [v is None] *)
Definition is_None (v : value) : bool :=
  match v with VNone => true | _ => false end.

(** [str.upper()] on ASCII text. *)
Definition upper_ascii (c : ascii) : ascii :=
  let n := nat_of_ascii c in
  if ((97 <=? n)%nat && (n <=? 122)%nat)%bool then ascii_of_nat (n - 32) else c.

Fixpoint upper (s : string) : string :=
  match s with
  | EmptyString => EmptyString
  | String c tl => String (upper_ascii c) (upper tl)
  end.

(** [c in s] for a one-character [c]. *)
Fixpoint contains (c : ascii) (s : string) : bool :=
  match s with
  | EmptyString => false
  | String c' tl => Ascii.eqb c' c || contains c tl
  end.

(** [s.split(c, 1)] for a one-character separator: at most one split, at
    the first occurrence. *)
Fixpoint split1 (c : ascii) (s : string) : list string :=
  match s with
  | EmptyString => [EmptyString]
  | String c' tl =>
      if Ascii.eqb c' c then [EmptyString; tl]
      else match split1 c tl with
           | [] => [String c' EmptyString]
           | h :: rest => String c' h :: rest
           end
  end.

(** Truthiness of a string and of a list ([None] is falsy). *)
Definition truthy_str (s : string) : bool :=
  match s with EmptyString => false | _ => true end.

Definition truthy_list {A} (l : list A) : bool :=
  match l with [] => false | _ => true end.

End Py.
Import Py.

Notation "x <- m ;; k" := (Py.bind m (fun x => k))
  (at level 61, m at next level, right associativity).

(* ===================================================================== *)
(** ** psycopg2.sql: composable pieces of a statement *)
(* ===================================================================== *)

Module sql.

Inductive Composable : Type :=
| SQL (text : string)
| Identifier (name : string)
| Placeholder
| Composed (seq : list Composable).

Definition dquote : ascii := ascii_of_nat 34.

(** [quote_ident]: the name between double quotes, each embedded double
    quote doubled. *)
Fixpoint escape (s : string) : string :=
  match s with
  | EmptyString => EmptyString
  | String c tl =>
      if Ascii.eqb c dquote then String c (String c (escape tl))
      else String c (escape tl)
  end.

Definition quote_ident (s : string) : string :=
  String dquote (escape s ++ String dquote EmptyString).

(** [Composable.as_string]; a [Composed] is the concatenation of its
    elements. *)
Fixpoint as_string (c : Composable) : string :=
  match c with
  | SQL text => text
  | Identifier name => quote_ident name
  | Placeholder => "%s"
  | Composed seq => String.concat EmptyString (map as_string seq)
  end.

(** Number of [Placeholder] objects in a composition. *)
Fixpoint placeholders (c : Composable) : nat :=
  match c with
  | Placeholder => 1
  | SQL _ | Identifier _ => 0
  | Composed seq => list_sum (map placeholders seq)
  end.

(** [Composable.__mul__]: [Composed([self] * n)], given as the sequence
    [join] iterates over. *)
Definition mul (c : Composable) (n : nat) : list Composable := repeat c n.

(** [SQL(joiner).join(seq)]: the first element, then joiner and element
    for every further one. *)
Definition join (joiner : string) (seq : list Composable) : Composable :=
  match seq with
  | [] => Composed []
  | first :: rest =>
      Composed (first :: flat_map (fun i => [SQL joiner; i]) rest)
  end.

(** [SQL(template).format( *args )] for templates made of literal text and
    auto-numbered [{}] fields: a non-empty literal becomes an [SQL], a
    field takes the next argument, a field without argument raises
    [IndexError]. *)
Definition literal (pre : string) : list Composable :=
  match pre with
  | EmptyString => []
  | _ => [SQL pre]
  end.

Fixpoint parse (template pre : string) (args : list Composable)
  : result (list Composable) :=
  match template with
  | EmptyString => Ok (literal pre)
  | String "{" (String "}" rest) =>
      match args with
      | [] => Raise IndexError
      | a :: args' =>
          rv <- parse rest EmptyString args' ;;
          Ok (literal pre ++ a :: rv)
      end
  | String c tl => parse tl (pre ++ String c EmptyString)%string args
  end.

Definition format (template : string) (args : list Composable)
  : result Composable :=
  rv <- parse template EmptyString args ;; Ok (Composed rv).

End sql.
Import sql.

(* ===================================================================== *)
(** ** The driver: cursor, statements sent, rows returned *)
(* ===================================================================== *)

Module Db.

(** What [cursor.execute] receives: the statement text and its parameters. *)
Definition statement : Type := (string * list value)%type.

(** The collaborator behind the connection: given the statements executed
    so far and the current one, a driver error or the rows returned. *)
Definition driver : Type :=
  list statement -> statement -> driver_error + list dict.

(** A terminal operation runs against the log of statements executed on
    the connection and may raise. *)
Definition DB (A : Type) : Type :=
  list statement -> result A * list statement.

Definition ret {A} (a : A) : DB A := fun log => (Ok a, log).

Definition lift {A} (r : result A) : DB A := fun log => (r, log).

Definition bind {A B} (m : DB A) (k : A -> DB B) : DB B :=
  fun log =>
    match m log with
    | (Ok a, log') => k a log'
    | (Raise e, log') => (Raise e, log')
    end.

(** [cur.execute(query, params)] followed by [cur.fetchall()]. *)
Definition cursor_execute (drv : driver) (query : Composable)
    (params : list value) : DB (list dict) :=
  fun log =>
    let st := (as_string query, params) in
    (match drv log st with
     | inl e => Raise (Driver e)
     | inr rows => Ok rows
     end, log ++ [st]).

(** [try: body except psycopg2.errors.QueryCanceled: raise TimeoutError] *)
Definition except_QueryCanceled {A} (body : DB A) : DB A :=
  fun log =>
    match body log with
    | (Raise (Driver QueryCanceled), log') => (Raise TimeoutError, log')
    | r => r
    end.

End Db.

Notation "x <~ m ;; k" := (Db.bind m (fun x => k))
  (at level 61, m at next level, right associativity).

(* ===================================================================== *)
(** ** class Table *)
(* ===================================================================== *)

Module Table.

(** One entry of [self._filters]: [(column, operator, value)]. *)
Definition filter_entry : Type := (string * string * value)%type.

(** The attributes set by [__init__] (the connection is the driver of
    module [Db]). *)
Record t : Type := mk {
  schema : option string;
  table_name : string;
  _filters : list filter_entry;
  _select_columns : list string;
  _order_by : list (string * string);
  _limit : value;
  _offset : value
}.

(** [schema, table_name = table_name.split('.', 1)]; unpacking anything but
    two parts raises [ValueError]. *)
Definition unpack2 (parts : list string) : result (string * string) :=
  match parts with
  | [a; b] => Ok (a, b)
  | _ => Raise ValueError
  end.

Definition __init__ (name : string) : result t :=
  qualified <-
    (if contains "." name then
       p <- unpack2 (split1 "." name) ;; Ok (Some (fst p), snd p)
     else Ok (None, name)) ;;
  Ok {| schema := fst qualified;
        table_name := snd qualified;
        _filters := [];
        _select_columns := ["*"];
        _order_by := [];
        _limit := VNone;
        _offset := VNone |}.

(** *** Builder methods: each returns [self] after the update *)

Definition select (self : t) (columns : list string) : t :=
  {| schema := schema self;
     table_name := table_name self;
     _filters := _filters self;
     _select_columns := if truthy_list columns then columns else ["*"];
     _order_by := _order_by self;
     _limit := _limit self;
     _offset := _offset self |}.

Definition _add_filter (self : t) (column operator : string) (v : value)
  : t :=
  {| schema := schema self;
     table_name := table_name self;
     _filters := _filters self ++ [(column, operator, v)];
     _select_columns := _select_columns self;
     _order_by := _order_by self;
     _limit := _limit self;
     _offset := _offset self |}.

Definition eq (self : t) (column : string) (v : value) : t :=
  _add_filter self column "=" v.
Definition neq (self : t) (column : string) (v : value) : t :=
  _add_filter self column "!=" v.
Definition gt (self : t) (column : string) (v : value) : t :=
  _add_filter self column ">" v.
Definition gte (self : t) (column : string) (v : value) : t :=
  _add_filter self column ">=" v.
Definition lt (self : t) (column : string) (v : value) : t :=
  _add_filter self column "<" v.
Definition lte (self : t) (column : string) (v : value) : t :=
  _add_filter self column "<=" v.
Definition like (self : t) (column : string) (pattern : value) : t :=
  _add_filter self column "LIKE" pattern.
Definition ilike (self : t) (column : string) (pattern : value) : t :=
  _add_filter self column "ILIKE" pattern.

(** [tuple(values)] is evaluated before [_add_filter] is entered. *)
Definition in_ (self : t) (column : string) (vs : value) : result t :=
  tup <- tuple vs ;; Ok (_add_filter self column "IN" tup).
Definition not_in (self : t) (column : string) (vs : value) : result t :=
  tup <- tuple vs ;; Ok (_add_filter self column "NOT IN" tup).

Definition is_null (self : t) (column : string) : t :=
  _add_filter self column "IS" VNone.
Definition is_not_null (self : t) (column : string) : t :=
  _add_filter self column "IS NOT" VNone.

Definition order (self : t) (column : string) (ascending : bool) : t :=
  {| schema := schema self;
     table_name := table_name self;
     _filters := _filters self;
     _select_columns := _select_columns self;
     _order_by :=
       _order_by self ++ [(column, if ascending then "ASC" else "DESC")];
     _limit := _limit self;
     _offset := _offset self |}.

Definition limit (self : t) (n : value) : t :=
  {| schema := schema self;
     table_name := table_name self;
     _filters := _filters self;
     _select_columns := _select_columns self;
     _order_by := _order_by self;
     _limit := n;
     _offset := _offset self |}.

Definition offset (self : t) (n : value) : t :=
  {| schema := schema self;
     table_name := table_name self;
     _filters := _filters self;
     _select_columns := _select_columns self;
     _order_by := _order_by self;
     _limit := _limit self;
     _offset := n |}.

(** *** Clause builders *)

Definition _get_table_identifier (self : t) : result Composable :=
  match schema self with
  | Some s =>
      if truthy_str s then
        format "{}.{}" [Identifier s; Identifier (table_name self)]
      else Ok (Identifier (table_name self))
  | None => Ok (Identifier (table_name self))
  end.

(** [operator.upper() in ('IN', 'NOT IN')] and
    [operator.upper() in ('IS', 'IS NOT')] *)
Definition in_operator (operator : string) : bool :=
  String.eqb (upper operator) "IN" || String.eqb (upper operator) "NOT IN".

Definition is_operator (operator : string) : bool :=
  String.eqb (upper operator) "IS" || String.eqb (upper operator) "IS NOT".

(** The body of the loop of [_build_where_clause]. *)
Definition condition (f : filter_entry) : result Composable :=
  let '(column, operator, v) := f in
  if in_operator operator then
    n <- len v ;;
    format "{} {} ({})"
      [Identifier column; SQL operator; join ", " (mul Placeholder n)]
  else if is_None v && is_operator operator then
    format "{} {} NULL" [Identifier column; SQL operator]
  else
    format "{} {} {}" [Identifier column; SQL operator; Placeholder].

Definition _build_where_clause (self : t) : result Composable :=
  if negb (truthy_list (_filters self)) then Ok (SQL EmptyString)
  else
    conditions <- mapM condition (_filters self) ;;
    format " WHERE {}" [join " AND " conditions].

Definition _build_order_by_clause (self : t) : result Composable :=
  if negb (truthy_list (_order_by self)) then Ok (SQL EmptyString)
  else
    order_terms <-
      mapM (fun cd : string * string =>
              format "{} {}" [Identifier (fst cd); SQL (snd cd)])
           (_order_by self) ;;
    format " ORDER BY {}" [join ", " order_terms].

Definition _build_limit_clause (self : t) : Composable :=
  if negb (is_None (_limit self)) then SQL " LIMIT %s" else SQL EmptyString.

Definition _build_offset_clause (self : t) : Composable :=
  if negb (is_None (_offset self)) then SQL " OFFSET %s"
  else SQL EmptyString.

(** The loop of [_get_filter_values], [values] being the list built so
    far. *)
Fixpoint filter_values_loop (filters : list filter_entry)
    (values : list value) : result (list value) :=
  match filters with
  | [] => Ok values
  | (_, operator, v) :: rest =>
      if in_operator operator then
        items <- iter v ;; filter_values_loop rest (values ++ items)
      else if negb (is_None v) || negb (is_operator operator) then
        filter_values_loop rest (values ++ [v])
      else filter_values_loop rest values
  end.

Definition _get_filter_values (self : t) : result (list value) :=
  filter_values_loop (_filters self) [].

(** One iteration of that loop read on its own: the values the entry
    adds. *)
Definition entry_values (f : filter_entry) : result (list value) :=
  let '(_, operator, v) := f in
  if in_operator operator then iter v
  else if negb (is_None v) || negb (is_operator operator) then Ok [v]
  else Ok [].

(** *** Terminal operations

    Each one first builds the statement and its parameters, then hands
    both to the cursor. *)

(** [filter(None, query_parts)] keeps the truthy parts; the classes of
    [psycopg2.sql] define neither [__bool__] nor [__len__], so every
    composable object is truthy, [SQL('')] included. *)
Definition truthy_composable (c : Composable) : bool := true.

(** [execute], up to the [with] block. *)
Definition execute_statement (self : t)
  : result (Composable * list value) :=
  let select_clause :=
    if list_eq_dec string_dec (_select_columns self) ["*"] then SQL "*"
    else join ", " (map Identifier (_select_columns self)) in
  head <- format "SELECT {} FROM" [select_clause] ;;
  relation <- _get_table_identifier self ;;
  where_clause <- _build_where_clause self ;;
  order_clause <- _build_order_by_clause self ;;
  let query_parts :=
    [head; relation; where_clause; order_clause;
     _build_limit_clause self; _build_offset_clause self] in
  let query := join " " (filter truthy_composable query_parts) in
  params <- _get_filter_values self ;;
  let params :=
    if negb (is_None (_limit self)) then params ++ [_limit self]
    else params in
  let params :=
    if negb (is_None (_offset self)) then params ++ [_offset self]
    else params in
  Ok (query, params).

(** [data: Union[Dict, List[Dict]]] *)
Inductive payload : Type :=
| Row (row : dict)
| Rows (rows : list dict).

(** [if isinstance(data, dict): data = [data]] *)
Definition as_rows (data : payload) : list dict :=
  match data with
  | Row row => [row]
  | Rows rows => rows
  end.

(** [data[0].keys()] *)
Definition first_keys (data : list dict) : result (list string) :=
  match data with
  | [] => Raise IndexError
  | row :: _ => Ok (keys row)
  end.

(** [[[row[col] for col in columns] for row in data]] *)
Definition row_values (columns : list string) (data : list dict)
  : result (list (list value)) :=
  mapM (fun row => mapM (fun col => getitem row col) columns) data.

(** [insert], up to the [with] block. *)
Definition insert_statement (self : t) (data : payload)
  : result (Composable * list value) :=
  let data := as_rows data in
  columns <- first_keys data ;;
  values <- row_values columns data ;;
  relation <- _get_table_identifier self ;;
  query <- format "INSERT INTO {} ({}) VALUES {} RETURNING *"
             [relation;
              join ", " (map Identifier columns);
              join ", " (mul Placeholder (List.length data))] ;;
  Ok (query, map VTuple values).

(** [[col for col in columns if col not in conflict_columns]] *)
Definition update_columns (columns conflict_columns : list string)
  : list string :=
  filter (fun col => negb (existsb (String.eqb col) conflict_columns))
         columns.

(** The [DO UPDATE SET] items of [upsert]. *)
Definition excluded_items (cols : list string) : result (list Composable) :=
  mapM (fun col => format "{} = EXCLUDED.{}" [Identifier col; Identifier col])
       cols.

(** [upsert], up to the [with] block. *)
Definition upsert_statement (self : t) (data : payload)
    (conflict_columns : list string) : result (Composable * list value) :=
  let data := as_rows data in
  columns <- first_keys data ;;
  values <- row_values columns data ;;
  relation <- _get_table_identifier self ;;
  items <- excluded_items (update_columns columns conflict_columns) ;;
  query <- format
             "INSERT INTO {} ({}) VALUES {} ON CONFLICT ({}) DO UPDATE SET {} RETURNING *"
             [relation;
              join ", " (map Identifier columns);
              join ", " (mul Placeholder (List.length data));
              join ", " (map Identifier conflict_columns);
              join ", " items] ;;
  Ok (query, map VTuple values).

(** [update], up to the [with] block. *)
Definition update_statement (self : t) (data : dict)
  : result (Composable * list value) :=
  set_items <-
    mapM (fun k => format "{} = {}" [Identifier k; Placeholder])
         (keys data) ;;
  relation <- _get_table_identifier self ;;
  where_clause <- _build_where_clause self ;;
  query <- format "UPDATE {} SET {} {} RETURNING *"
             [relation; join ", " set_items; where_clause] ;;
  filter_values <- _get_filter_values self ;;
  Ok (query, values data ++ filter_values).

(** [delete], up to the [with] block. *)
Definition delete_statement (self : t)
  : result (Composable * list value) :=
  relation <- _get_table_identifier self ;;
  where_clause <- _build_where_clause self ;;
  query <- format "DELETE FROM {} {} RETURNING *" [relation; where_clause] ;;
  filter_values <- _get_filter_values self ;;
  Ok (query, filter_values).

Section Terminal.

Variable drv : Db.driver.

Definition execute (self : t) : Db.DB (list dict) :=
  st <~ Db.lift (execute_statement self) ;;
  Db.except_QueryCanceled (Db.cursor_execute drv (fst st) (snd st)).

Definition insert (self : t) (data : payload) : Db.DB (list dict) :=
  st <~ Db.lift (insert_statement self data) ;;
  Db.cursor_execute drv (fst st) (snd st).

Definition upsert (self : t) (data : payload)
    (conflict_columns : list string) : Db.DB (list dict) :=
  st <~ Db.lift (upsert_statement self data conflict_columns) ;;
  Db.cursor_execute drv (fst st) (snd st).

Definition update (self : t) (data : dict) : Db.DB (list dict) :=
  st <~ Db.lift (update_statement self data) ;;
  Db.cursor_execute drv (fst st) (snd st).

Definition delete (self : t) : Db.DB (list dict) :=
  st <~ Db.lift (delete_statement self) ;;
  Db.cursor_execute drv (fst st) (snd st).

End Terminal.

End Table.

(* ===================================================================== *)
(** ** class RPC *)
(* ===================================================================== *)

Module RPC.

(** [call], up to the [with] block; [params or {}] replaces [None] (and
    an empty mapping) by an empty mapping. *)
Definition call_statement (procedure : string) (params : option dict)
  : result (Composable * list value) :=
  let params :=
    match params with
    | Some d => if truthy_list d then d else []
    | None => []
    end in
  args <- mapM (fun k => format "{}:={}" [Identifier k; Placeholder])
               (keys params) ;;
  query <- format "SELECT {}({})" [Identifier procedure; join ", " args] ;;
  Ok (query, values params).

(** [cur.fetchone()]: the first row, or [None]. *)
Definition fetchone (rows : list dict) : option dict :=
  match rows with
  | [] => None
  | row :: _ => Some row
  end.

(** [result[procedure] if result else None] *)
Definition unwrap (procedure : string) (fetched : option dict)
  : result value :=
  match fetched with
  | Some row => if truthy_list row then getitem row procedure else Ok VNone
  | None => Ok VNone
  end.

Section Call.

Variable drv : Db.driver.

Definition call (procedure : string) (params : option dict)
  : Db.DB value :=
  st <~ Db.lift (call_statement procedure params) ;;
  rows <~ Db.cursor_execute drv (fst st) (snd st) ;;
  Db.lift (unwrap procedure (fetchone rows)).

End Call.

End RPC.

(* ===================================================================== *)
(** ** Chains of builder calls *)
(* ===================================================================== *)

Module Chain.

(** One call of a builder method, with its arguments. *)
Inductive call : Type :=
| select (columns : list string)
| eq (column : string) (v : value)
| neq (column : string) (v : value)
| gt (column : string) (v : value)
| gte (column : string) (v : value)
| lt (column : string) (v : value)
| lte (column : string) (v : value)
| like (column : string) (pattern : value)
| ilike (column : string) (pattern : value)
| in_ (column : string) (vs : value)
| not_in (column : string) (vs : value)
| is_null (column : string)
| is_not_null (column : string)
| _add_filter (column operator : string) (v : value)
| order (column : string) (ascending : bool)
| limit (n : value)
| offset (n : value).

(** The calls that go through [Table._add_filter]. *)
Definition is_filter_call (c : call) : bool :=
  match c with
  | select _ | order _ _ | limit _ | offset _ => false
  | _ => true
  end.

Definition step (c : call) (self : Table.t) : result Table.t :=
  match c with
  | select columns => Ok (Table.select self columns)
  | eq column v => Ok (Table.eq self column v)
  | neq column v => Ok (Table.neq self column v)
  | gt column v => Ok (Table.gt self column v)
  | gte column v => Ok (Table.gte self column v)
  | lt column v => Ok (Table.lt self column v)
  | lte column v => Ok (Table.lte self column v)
  | like column pattern => Ok (Table.like self column pattern)
  | ilike column pattern => Ok (Table.ilike self column pattern)
  | in_ column vs => Table.in_ self column vs
  | not_in column vs => Table.not_in self column vs
  | is_null column => Ok (Table.is_null self column)
  | is_not_null column => Ok (Table.is_not_null self column)
  | _add_filter column operator v =>
      Ok (Table._add_filter self column operator v)
  | order column ascending => Ok (Table.order self column ascending)
  | limit n => Ok (Table.limit self n)
  | offset n => Ok (Table.offset self n)
  end.

(** A chain [t.c1(..).c2(..)...]: the builder after the chain, and the
    exception that cut it short, if any (a call that raises leaves the
    builder as it found it). *)
Fixpoint run (calls : list call) (self : Table.t)
  : Table.t * option exn :=
  match calls with
  | [] => (self, None)
  | c :: rest =>
      match step c self with
      | Ok self' => run rest self'
      | Raise e => (self, Some e)
      end
  end.

End Chain.

(* ===================================================================== *)
(** ** Builders, payloads and drivers used as examples *)
(* ===================================================================== *)

Module Sample.

(** [Table(conn, 'users')] *)
Definition users : Table.t :=
  Table.mk None "users" [] ["*"] [] VNone VNone.

(** The same builder after [.eq('a', 1).in_('b', [2, 3]).is_null('c')]. *)
Definition filtered : Table.t :=
  Table.mk None "users"
    [("a", "=", VInt 1); ("b", "IN", VTuple [VInt 2; VInt 3]);
     ("c", "IS", VNone)]
    ["*"] [] VNone VNone.

(** A builder on [app.users] after
    [.select('id').order('id', False).limit(10).offset(5)]. *)
Definition paged : Table.t :=
  Table.mk (Some "app") "users" [] ["id"] [("id", "DESC")]
    (VInt 10) (VInt 5).

(** A driver that answers every statement with the same rows. *)
Definition answers (rows : list dict) : Db.driver := fun _ _ => inr rows.

(** A driver whose statements are cancelled by the statement timeout. *)
Definition times_out : Db.driver := fun _ _ => inl QueryCanceled.

End Sample.

(* ===================================================================== *)
(** ** Measures and classifications used to state properties *)
(* ===================================================================== *)

Module Shape.

(** Occurrences of a character in a text. *)
Fixpoint count (c : ascii) (s : string) : nat :=
  match s with
  | EmptyString => 0
  | String c' tl => (if Ascii.eqb c' c then 1 else 0) + count c tl
  end.

(** The percent signs a composition carries in its literal text and in
    its identifiers, its [Placeholder] objects left aside. *)
Fixpoint literal_percents (c : Composable) : nat :=
  match c with
  | SQL text => count "%" text
  | Identifier name => count "%" name
  | Placeholder => 0
  | Composed seq => list_sum (map literal_percents seq)
  end.

(** The public builder methods: every call but a direct [_add_filter]. *)
Definition public (c : Chain.call) : bool :=
  match c with
  | Chain._add_filter _ _ _ => false
  | _ => true
  end.

(** The attribute of the builder a call writes. *)
Inductive attribute : Type :=
| Projection
| Filters
| Ordering
| Limit
| Offset.

Definition writes (c : Chain.call) : attribute :=
  match c with
  | Chain.select _ => Projection
  | Chain.order _ _ => Ordering
  | Chain.limit _ => Limit
  | Chain.offset _ => Offset
  | _ => Filters
  end.

Definition attribute_eqb (a b : attribute) : bool :=
  match a, b with
  | Projection, Projection | Filters, Filters | Ordering, Ordering
  | Limit, Limit | Offset, Offset => true
  | _, _ => false
  end.

(** The operands that [len] sizes and iteration enumerates alike:
    tuples, lists and strings. *)
Definition sequence (v : value) : bool :=
  match v with
  | VTuple _ | VList _ | VStr _ => true
  | VNone | VBool _ | VInt _ => false
  end.

(** Every entry with operator IN or NOT IN holds such an operand. *)
Definition sequence_operands (self : Table.t) : bool :=
  forallb (fun f : Table.filter_entry =>
             negb (Table.in_operator (snd (fst f))) || sequence (snd f))
          (Table._filters self).

(** No name of the builder holds a percent sign: relation, schema,
    projected columns, filter columns and operators, ordering columns and
    directions. *)
Definition no_percent (s : string) : bool := Nat.eqb (count "%" s) 0.

Definition percent_free (self : Table.t) : bool :=
  no_percent (Table.table_name self)
  && match Table.schema self with
     | Some s => no_percent s
     | None => true
     end
  && forallb no_percent (Table._select_columns self)
  && forallb (fun f : Table.filter_entry =>
                no_percent (fst (fst f)) && no_percent (snd (fst f)))
             (Table._filters self)
  && forallb (fun cd : string * string =>
                no_percent (fst cd) && no_percent (snd cd))
             (Table._order_by self).

End Shape.

(* ===================================================================== *)
(** * Properties *)
(* ===================================================================== *)

(** ** Strings and the error monad *)

Lemma bind_Ok {A B} (m : result A) (k : A -> result B) (b : B) :
  Py.bind m k = Ok b -> exists a, m = Ok a /\ k a = Ok b.
Proof.
  destruct m as [a|e]; simpl; intros H; [now exists a | discriminate].
Qed.

Lemma mapM_app {A B} (f : A -> result B) (l1 l2 : list A) r1 r2 :
  mapM f l1 = Ok r1 -> mapM f l2 = Ok r2 ->
  mapM f (l1 ++ l2) = Ok (r1 ++ r2).
Proof.
  revert r1; induction l1 as [|x l1 IH]; simpl; intros r1 H1 H2.
  - now inversion H1.
  - destruct (f x) as [y|e]; simpl in *; [|discriminate].
    destruct (mapM f l1) as [ys|e]; simpl in *; [|discriminate].
    inversion H1; subst. now rewrite (IH ys eq_refl H2).
Qed.

Lemma mapM_length {A B} (f : A -> result B) (l : list A) r :
  mapM f l = Ok r -> List.length r = List.length l.
Proof.
  revert r; induction l as [|x l IH]; simpl; intros r H.
  - now inversion H.
  - destruct (f x) as [y|e]; simpl in *; [|discriminate].
    destruct (mapM f l) as [ys|e]; simpl in *; [|discriminate].
    inversion H; subst; simpl. now rewrite (IH ys eq_refl).
Qed.

Lemma contains_app_sep (c : ascii) (pre rest : string) :
  contains c (pre ++ String c rest) = true.
Proof.
  induction pre as [|a pre IH]; simpl.
  - now rewrite Ascii.eqb_refl.
  - rewrite IH. apply orb_true_r.
Qed.

Lemma split1_absent (c : ascii) (s : string) :
  contains c s = false -> split1 c s = [s].
Proof.
  induction s as [|a s IH]; simpl; intros H; [reflexivity|].
  apply orb_false_iff in H as [Ha Hs].
  rewrite Ha, (IH Hs). reflexivity.
Qed.

Lemma split1_first (c : ascii) (pre rest : string) :
  contains c pre = false ->
  split1 c (pre ++ String c rest) = [pre; rest].
Proof.
  induction pre as [|a pre IH]; simpl; intros H.
  - now rewrite Ascii.eqb_refl.
  - apply orb_false_iff in H as [Ha Hs].
    rewrite Ha, (IH Hs). reflexivity.
Qed.

(** Every name with a separator has a first one. *)
Lemma first_separator (c : ascii) (s : string) :
  contains c s = true ->
  exists pre rest, s = (pre ++ String c rest)%string /\ contains c pre = false.
Proof.
  induction s as [|a s IH]; simpl; intros H; [discriminate|].
  destruct (Ascii.eqb a c) eqn:E.
  - apply Ascii.eqb_eq in E; subst a. now exists EmptyString, s.
  - simpl in H. destruct (IH H) as (pre & rest & -> & Hp).
    exists (String a pre), rest. simpl. now rewrite E, Hp.
Qed.

(** ** Construction of a builder *)

(** C10. A table name is split at its first [.] only: for a text [pre]
    without separator, the name [pre.rest] gives schema [pre] and relation
    name [rest], whatever further separators [rest] holds, and the name
    [pre] alone gives no schema and [pre] as the relation name. *)
Theorem init_splits_at_first_separator (pre rest : string) :
  contains "." pre = false ->
  Table.__init__ (pre ++ String "." rest) =
    Ok (Table.mk (Some pre) rest [] ["*"] [] VNone VNone)
  /\ Table.__init__ pre = Ok (Table.mk None pre [] ["*"] [] VNone VNone).
Proof.
  intros H. unfold Table.__init__. split.
  - rewrite contains_app_sep, (split1_first _ _ _ H). reflexivity.
  - rewrite H. reflexivity.
Qed.

Lemma init_splits_at_first_separator_witness :
  contains "." "public" = false
  /\ Table.__init__ "public.users.v2" =
       Ok (Table.mk (Some "public") "users.v2" [] ["*"] [] VNone VNone)
  /\ Table.__init__ "public" =
       Ok (Table.mk None "public" [] ["*"] [] VNone VNone).
Proof.
  split; [reflexivity|].
  apply (init_splits_at_first_separator "public" "users.v2"). reflexivity.
Defined.

(** ** Accumulation across chained calls *)

(** What one call does to the builder. *)
Lemma step_effect (c : Chain.call) (self : Table.t) :
  match Chain.step c self with
  | Ok self' =>
      Table.schema self' = Table.schema self
      /\ Table.table_name self' = Table.table_name self
      /\ match c with
         | Chain.select columns =>
             Table._select_columns self' =
               (if truthy_list columns then columns else ["*"])
             /\ Table._filters self' = Table._filters self
             /\ Table._order_by self' = Table._order_by self
             /\ Table._limit self' = Table._limit self
             /\ Table._offset self' = Table._offset self
         | Chain.order column ascending =>
             Table._order_by self' =
               Table._order_by self
                 ++ [(column, if ascending then "ASC" else "DESC")]
             /\ Table._filters self' = Table._filters self
             /\ Table._select_columns self' = Table._select_columns self
             /\ Table._limit self' = Table._limit self
             /\ Table._offset self' = Table._offset self
         | Chain.limit n =>
             Table._limit self' = n
             /\ Table._filters self' = Table._filters self
             /\ Table._order_by self' = Table._order_by self
             /\ Table._select_columns self' = Table._select_columns self
             /\ Table._offset self' = Table._offset self
         | Chain.offset n =>
             Table._offset self' = n
             /\ Table._filters self' = Table._filters self
             /\ Table._order_by self' = Table._order_by self
             /\ Table._select_columns self' = Table._select_columns self
             /\ Table._limit self' = Table._limit self
         | _ =>
             (exists entry,
                Table._filters self' = Table._filters self ++ [entry])
             /\ Table._order_by self' = Table._order_by self
             /\ Table._select_columns self' = Table._select_columns self
             /\ Table._limit self' = Table._limit self
             /\ Table._offset self' = Table._offset self
         end
  | Raise e =>
      e = TypeError
      /\ exists column vs,
           (c = Chain.in_ column vs \/ c = Chain.not_in column vs)
           /\ iter vs = Raise TypeError
  end.
Proof.
  destruct c; simpl;
    try (repeat split; try reflexivity; eexists; reflexivity).
  - unfold Table.in_, tuple.
    destruct (iter vs) as [l|e] eqn:E; simpl.
    + repeat split; try reflexivity. eexists; reflexivity.
    + assert (e = TypeError) by (destruct vs; simpl in E; congruence).
      subst e. split; [reflexivity|]. exists column, vs. auto.
  - unfold Table.not_in, tuple.
    destruct (iter vs) as [l|e] eqn:E; simpl.
    + repeat split; try reflexivity. eexists; reflexivity.
    + assert (e = TypeError) by (destruct vs; simpl in E; congruence).
      subst e. split; [reflexivity|]. exists column, vs. auto.
Qed.

Lemma step_extends (c : Chain.call) (self self' : Table.t) :
  Chain.step c self = Ok self' ->
  (exists added, Table._filters self' = Table._filters self ++ added)
  /\ (exists added, Table._order_by self' = Table._order_by self ++ added).
Proof.
  intros H. pose proof (step_effect c self) as E. rewrite H in E.
  destruct E as (_ & _ & E).
  destruct c;
    try (destruct E as ((entry & Hf) & Ho & _); split;
         [exists [entry]; exact Hf | exists []; now rewrite app_nil_r]).
  - destruct E as (_ & Hf & Ho & _). split; exists [];
      now rewrite app_nil_r.
  - destruct E as (Ho & Hf & _). split;
      [exists []; now rewrite app_nil_r | eexists; exact Ho].
  - destruct E as (_ & Hf & Ho & _). split; exists [];
      now rewrite app_nil_r.
  - destruct E as (_ & Hf & Ho & _). split; exists [];
      now rewrite app_nil_r.
Qed.

Lemma run_extends (calls : list Chain.call) (self : Table.t) :
  (exists added,
     Table._filters (fst (Chain.run calls self)) =
       Table._filters self ++ added)
  /\ (exists added,
        Table._order_by (fst (Chain.run calls self)) =
          Table._order_by self ++ added).
Proof.
  revert self. induction calls as [|c calls IH]; intros self; simpl.
  - split; exists []; now rewrite app_nil_r.
  - destruct (Chain.step c self) as [self'|e] eqn:E; simpl.
    + destruct (step_extends _ _ _ E) as ((f1 & Hf1) & (o1 & Ho1)).
      destruct (IH self') as ((f2 & Hf2) & (o2 & Ho2)).
      split; [exists (f1 ++ f2) | exists (o1 ++ o2)];
        rewrite app_assoc; congruence.
    + split; exists []; now rewrite app_nil_r.
Qed.

(** C9. Across any chain of builder calls the filters and the ordering
    only grow at their end: what was accumulated before the chain is a
    prefix of what is accumulated after it.  Each filter method adds one
    entry at the end of the filters and each [order] one at the end of the
    ordering, while [select], [limit] and [offset] set their attribute to
    the argument of the call whatever it held before, and touch nothing
    else.  In particular [select] after two appended filters keeps both. *)
Theorem append_versus_overwrite :
  (forall (calls : list Chain.call) (self : Table.t),
     (exists added,
        Table._filters (fst (Chain.run calls self)) =
          Table._filters self ++ added)
     /\ (exists added,
           Table._order_by (fst (Chain.run calls self)) =
             Table._order_by self ++ added))
  /\ (forall c self self',
        Chain.is_filter_call c = true ->
        Chain.step c self = Ok self' ->
        (exists entry,
           Table._filters self' = Table._filters self ++ [entry])
        /\ Table._order_by self' = Table._order_by self)
  /\ (forall self column operator v,
        Table._filters (Table._add_filter self column operator v) =
          Table._filters self ++ [(column, operator, v)]
        /\ Table._order_by (Table._add_filter self column operator v) =
             Table._order_by self)
  /\ (forall self column ascending,
        Table._order_by (Table.order self column ascending) =
          Table._order_by self
            ++ [(column, if ascending then "ASC" else "DESC")]
        /\ Table._filters (Table.order self column ascending) =
             Table._filters self)
  /\ (forall self columns1 columns2 n1 n2,
        Table.select (Table.select self columns1) columns2 =
          Table.select self columns2
        /\ Table.limit (Table.limit self n1) n2 = Table.limit self n2
        /\ Table.offset (Table.offset self n1) n2 = Table.offset self n2)
  /\ (forall self columns n,
        Table._select_columns (Table.select self columns) =
          (if truthy_list columns then columns else ["*"])
        /\ Table._limit (Table.limit self n) = n
        /\ Table._offset (Table.offset self n) = n)
  /\ (forall self c1 o1 v1 c2 o2 v2 columns,
        Table._filters
          (Table.select
             (Table._add_filter (Table._add_filter self c1 o1 v1) c2 o2 v2)
             columns) =
          Table._filters self ++ [(c1, o1, v1); (c2, o2, v2)]).
Proof.
  split; [exact run_extends|]. split.
  { intros c self self' Hc H. pose proof (step_effect c self) as E.
    rewrite H in E. destruct E as (_ & _ & E).
    destruct c; try discriminate Hc;
      destruct E as (Hf & Ho & _); split; assumption. }
  repeat split; try reflexivity.
  intros. simpl. now rewrite <- app_assoc.
Qed.

Lemma append_versus_overwrite_witness :
  Table._filters
    (fst (Chain.run [Chain.eq "a" (VInt 1); Chain.gt "b" (VInt 5);
                     Chain.select ["a"; "b"]; Chain.select []]
                    Sample.users)) =
    [("a", "=", VInt 1); ("b", ">", VInt 5)]
  /\ exists entry,
       Table._filters (Table.eq Sample.filtered "d" (VInt 4)) =
         Table._filters Sample.filtered ++ [entry].
Proof.
  split; [reflexivity|].
  apply (proj1 (proj2 append_versus_overwrite)
           (Chain.eq "d" (VInt 4)) Sample.filtered
           (Table.eq Sample.filtered "d" (VInt 4)) eq_refl eq_refl).
Defined.

(** ** Compositions: text and placeholders *)

Lemma concat_empty_cons (x : string) (l : list string) :
  String.concat EmptyString (x :: l) = (x ++ String.concat EmptyString l)%string.
Proof.
  destruct l as [|y l]; simpl; [|reflexivity].
  induction x as [|a x IH]; simpl; [reflexivity | now rewrite <- IH].
Qed.

Lemma as_string_Composed_cons (c : Composable) (l : list Composable) :
  as_string (Composed (c :: l)) =
    (as_string c ++ as_string (Composed l))%string.
Proof. simpl. apply concat_empty_cons. Qed.

Lemma as_string_Composed (l : list Composable) :
  as_string (Composed l) = fold_right append EmptyString (map as_string l).
Proof.
  induction l as [|c l IH]; [reflexivity|].
  rewrite as_string_Composed_cons, IH. reflexivity.
Qed.

Lemma append_empty_r (s : string) : (s ++ EmptyString)%string = s.
Proof. induction s as [|a s IH]; simpl; [reflexivity | now rewrite IH]. Qed.

Lemma append_assoc (a b c : string) :
  ((a ++ b) ++ c)%string = (a ++ (b ++ c))%string.
Proof. induction a as [|x a IH]; simpl; [reflexivity | now rewrite IH]. Qed.

(** The text of a join is the texts of the elements around the joiner. *)
Lemma as_string_join (joiner : string) (l : list Composable) :
  as_string (join joiner l) = String.concat joiner (map as_string l).
Proof.
  destruct l as [|x l]; [reflexivity|].
  unfold join. rewrite as_string_Composed_cons.
  revert x. induction l as [|y l IH]; intros x.
  - simpl. apply append_empty_r.
  - change (flat_map (fun i => [SQL joiner; i]) (y :: l))
      with (SQL joiner :: y :: flat_map (fun i => [SQL joiner; i]) l).
    change (String.concat joiner (map as_string (x :: y :: l)))
      with (as_string x ++ joiner
              ++ String.concat joiner (map as_string (y :: l)))%string.
    rewrite 2 as_string_Composed_cons, <- (IH y). reflexivity.
Qed.

Lemma placeholders_join (joiner : string) (l : list Composable) :
  placeholders (join joiner l) = list_sum (map placeholders l).
Proof.
  destruct l as [|x l]; [reflexivity|].
  simpl. f_equal. induction l as [|y l IH]; simpl; [reflexivity|].
  now rewrite IH.
Qed.

Lemma placeholders_repeat (n : nat) :
  list_sum (map placeholders (mul Placeholder n)) = n.
Proof.
  unfold mul. induction n as [|n IH]; simpl; [reflexivity | now rewrite IH].
Qed.

Lemma as_string_repeat (n : nat) :
  map as_string (mul Placeholder n) = repeat "%s"%string n.
Proof.
  unfold mul. induction n as [|n IH]; simpl; [reflexivity | now rewrite IH].
Qed.

(** ** The filter ledger *)

Lemma is_operator_not_in (operator : string) :
  Table.is_operator operator = true -> Table.in_operator operator = false.
Proof.
  unfold Table.is_operator, Table.in_operator. intros H.
  apply orb_true_iff in H as [H|H]; apply String.eqb_eq in H; rewrite H;
    reflexivity.
Qed.

Lemma iter_len (v : value) (items : list value) :
  iter v = Ok items -> len v = Ok (List.length items).
Proof.
  destruct v; simpl; intros H; inversion H; subst; try reflexivity.
  unfold chars. rewrite length_map. f_equal.
  clear H. induction s as [|a s IH]; simpl; [reflexivity | now rewrite IH].
Qed.

Lemma len_iter (v : value) (n : nat) :
  len v = Ok n -> exists items, iter v = Ok items /\ List.length items = n.
Proof.
  destruct v; simpl; intros H; inversion H; subst; eauto.
  eexists; split; [reflexivity|].
  unfold chars. rewrite length_map.
  clear H. induction s as [|a s IH]; simpl; [reflexivity | now rewrite IH].
Qed.

(** The loop of [_get_filter_values] concatenates what the entries add. *)
Lemma filter_values_loop_chunks (filters : list Table.filter_entry)
    (acc : list value) :
  Table.filter_values_loop filters acc =
    (chunks <- mapM Table.entry_values filters ;; Ok (acc ++ concat chunks)).
Proof.
  revert acc. induction filters as [|[[column operator] v] rest IH];
    intros acc; simpl.
  - now rewrite app_nil_r.
  - destruct (Table.in_operator operator).
    + destruct (iter v) as [items|e]; simpl; [|reflexivity].
      rewrite IH. destruct (mapM Table.entry_values rest); simpl;
        [now rewrite app_assoc | reflexivity].
    + destruct (negb (is_None v) || negb (Table.is_operator operator));
        simpl; rewrite IH;
        destruct (mapM Table.entry_values rest); simpl;
        try reflexivity; now rewrite <- ?app_assoc.
Qed.

Lemma filter_values_loop_app (l1 l2 : list Table.filter_entry) p1 p2 :
  Table.filter_values_loop l1 [] = Ok p1 ->
  Table.filter_values_loop l2 [] = Ok p2 ->
  Table.filter_values_loop (l1 ++ l2) [] = Ok (p1 ++ p2).
Proof.
  rewrite !filter_values_loop_chunks. intros H1 H2.
  apply bind_Ok in H1 as (c1 & E1 & H1).
  apply bind_Ok in H2 as (c2 & E2 & H2).
  rewrite (mapM_app _ _ _ _ _ E1 E2). simpl in *.
  inversion H1; inversion H2; subst. now rewrite concat_app.
Qed.

(** An entry the WHERE clause can render is an entry whose values can be
    collected, with as many values as placeholders. *)
Lemma condition_entry_values (f : Table.filter_entry) (c : Composable) :
  Table.condition f = Ok c ->
  exists vs, Table.entry_values f = Ok vs
             /\ placeholders c = List.length vs.
Proof.
  destruct f as [[column operator] v]. unfold Table.condition,
    Table.entry_values.
  destruct (Table.in_operator operator).
  - destruct (len v) as [n|e] eqn:L; simpl; [|discriminate].
    intros H; inversion H; subst; clear H.
    destruct (len_iter _ _ L) as (items & -> & Hn).
    exists items. split; [reflexivity|].
    cbn [placeholders map]. rewrite placeholders_join,
      placeholders_repeat. simpl. lia.
  - destruct (is_None v && Table.is_operator operator) eqn:E.
    + apply andb_true_iff in E as [E1 E2]. rewrite E1, E2. simpl.
      intros H; inversion H; subst. now exists [].
    + intros H; inversion H; subst; clear H. exists [v].
      apply andb_false_iff in E as [E|E]; rewrite E; simpl;
        rewrite ?orb_true_r; auto.
Qed.

Lemma conditions_values (filters : list Table.filter_entry)
    (cs : list Composable) :
  mapM Table.condition filters = Ok cs ->
  exists ps, Table.filter_values_loop filters [] = Ok ps
             /\ list_sum (map placeholders cs) = List.length ps.
Proof.
  rewrite filter_values_loop_chunks.
  revert cs. induction filters as [|f rest IH]; intros cs; simpl.
  - intros H; inversion H; subst. now exists [].
  - destruct (Table.condition f) as [c|e] eqn:C; simpl; [|discriminate].
    destruct (mapM Table.condition rest) as [cs'|e]; simpl; [|discriminate].
    intros H; inversion H; subst; clear H.
    destruct (condition_entry_values _ _ C) as (vs & -> & Hc).
    destruct (IH cs' eq_refl) as (ps & Hps & Hl). simpl.
    destruct (mapM Table.entry_values rest) as [chunks|e]; simpl in *;
      [|discriminate].
    inversion Hps; subst. eexists; split; [reflexivity|].
    simpl. rewrite length_app. lia.
Qed.

Lemma len_cases (v : value) :
  (exists n, len v = Ok n) \/ (len v = Raise TypeError /\ iter v = Raise TypeError).
Proof. destruct v; simpl; eauto. Qed.

Lemma condition_cases (f : Table.filter_entry) :
  (exists c, Table.condition f = Ok c)
  \/ (Table.condition f = Raise TypeError
      /\ Table.entry_values f = Raise TypeError).
Proof.
  destruct f as [[column operator] v].
  unfold Table.condition, Table.entry_values.
  destruct (Table.in_operator operator).
  - destruct (len_cases v) as [(n & ->)|(-> & ->)]; [left|right; auto].
    eexists; reflexivity.
  - left. destruct (is_None v && Table.is_operator operator);
      eexists; reflexivity.
Qed.

Lemma conditions_cases (filters : list Table.filter_entry) :
  (exists cs, mapM Table.condition filters = Ok cs)
  \/ (mapM Table.condition filters = Raise TypeError
      /\ mapM Table.entry_values filters = Raise TypeError).
Proof.
  induction filters as [|f rest IH]; [left; now exists []|].
  cbn [mapM].
  destruct (condition_cases f) as [(c & Hc)|(Hc & Hv)].
  - destruct (condition_entry_values _ _ Hc) as (vs & Hvs & _).
    rewrite Hc, Hvs. cbn [Py.bind].
    destruct IH as [(cs & ->)|(-> & ->)]; [left|right; auto].
    eexists; reflexivity.
  - rewrite Hc, Hv. right. auto.
Qed.

Lemma iter_cases (v : value) :
  (exists items, iter v = Ok items) \/ iter v = Raise TypeError.
Proof. destruct v; simpl; eauto. Qed.

Lemma entry_values_cases (f : Table.filter_entry) :
  (exists vs, Table.entry_values f = Ok vs)
  \/ Table.entry_values f = Raise TypeError.
Proof.
  destruct f as [[column operator] v]. unfold Table.entry_values.
  destruct (Table.in_operator operator); [apply iter_cases|].
  left. destruct (negb (is_None v) || negb (Table.is_operator operator));
    eexists; reflexivity.
Qed.

(** Building the WHERE clause and collecting the filter values raise
    nothing but [TypeError]. *)
Lemma where_clause_errors (self : Table.t) (e : exn) :
  Table._build_where_clause self = Raise e -> e = TypeError.
Proof.
  unfold Table._build_where_clause.
  destruct (Table._filters self) as [|f rest]; [discriminate|].
  cbn [truthy_list negb].
  destruct (conditions_cases (f :: rest)) as [(cs & ->)|(-> & _)];
    cbn; intros H; [discriminate H | congruence].
Qed.

Lemma filter_values_errors (self : Table.t) (e : exn) :
  Table._get_filter_values self = Raise e -> e = TypeError.
Proof.
  unfold Table._get_filter_values. rewrite filter_values_loop_chunks.
  induction (Table._filters self) as [|f rest IH]; [discriminate|].
  cbn [mapM]. destruct (entry_values_cases f) as [(vs & ->)| ->];
    [|cbn; congruence].
  cbn [Py.bind] in *.
  destruct (mapM Table.entry_values rest) as [chunks|e'];
    cbn [Py.bind] in *; [discriminate|].
  intros H. apply IH. congruence.
Qed.

Lemma filter_values_loop_cons (f : Table.filter_entry)
    (rest : list Table.filter_entry) vs ps :
  Table.entry_values f = Ok vs ->
  Table.filter_values_loop rest [] = Ok ps ->
  Table.filter_values_loop (f :: rest) [] = Ok (vs ++ ps).
Proof.
  rewrite !filter_values_loop_chunks. intros Hf Hr.
  apply bind_Ok in Hr as (chunks & E & Hr). simpl in *.
  rewrite Hf, E. simpl. now inversion Hr.
Qed.

Lemma where_clause_of_conditions (self : Table.t)
    (before after : list Table.filter_entry) (entry : Table.filter_entry)
    (cs_before cs_after : list Composable) (c : Composable) :
  Table._filters self = before ++ entry :: after ->
  mapM Table.condition before = Ok cs_before ->
  Table.condition entry = Ok c ->
  mapM Table.condition after = Ok cs_after ->
  Table._build_where_clause self =
    Ok (Composed [SQL " WHERE "; join " AND " (cs_before ++ c :: cs_after)]).
Proof.
  intros Hf Hb Hc Ha. unfold Table._build_where_clause. rewrite Hf.
  replace (truthy_list (before ++ entry :: after)) with true
    by (now destruct before).
  assert (Hm : mapM Table.condition (entry :: after) = Ok (c :: cs_after))
    by (simpl; now rewrite Hc, Ha).
  rewrite (mapM_app _ _ _ _ _ Hb Hm). reflexivity.
Qed.

(** C6. In a ledger whose other entries compile, an entry whose operator
    is IN or NOT IN (in any letter case) and whose operand is a sequence of
    N items is rendered [quote(column) operator (%s, ..., %s)] with exactly
    N placeholders, and the parameter list holds those N items, in order,
    between the parameters of the entries before and after it; an entry
    whose operator is IS or IS NOT and whose operand is [None] is rendered
    [quote(column) operator NULL], with no placeholder, and adds no
    parameter. *)
Theorem where_entry_placeholders_and_params
    (self : Table.t) (before after : list Table.filter_entry)
    (column operator : string) (v : value)
    (cs_before cs_after : list Composable) :
  Table._filters self = before ++ (column, operator, v) :: after ->
  mapM Table.condition before = Ok cs_before ->
  mapM Table.condition after = Ok cs_after ->
  exists ps_before ps_after,
    Table.filter_values_loop before [] = Ok ps_before
    /\ Table.filter_values_loop after [] = Ok ps_after
    /\ (forall items,
          Table.in_operator operator = true ->
          iter v = Ok items ->
          let entry :=
            Composed [Identifier column; SQL " "; SQL operator; SQL " (";
                      join ", " (mul Placeholder (List.length items));
                      SQL ")"] in
          Table._build_where_clause self =
            Ok (Composed [SQL " WHERE ";
                          join " AND " (cs_before ++ entry :: cs_after)])
          /\ placeholders entry = List.length items
          /\ as_string entry =
               (quote_ident column ++ " " ++ operator ++ " ("
                  ++ String.concat ", " (repeat "%s" (List.length items))
                  ++ ")")%string
          /\ Table._get_filter_values self =
               Ok (ps_before ++ items ++ ps_after))
    /\ (Table.is_operator operator = true ->
        v = VNone ->
        let entry :=
          Composed [Identifier column; SQL " "; SQL operator; SQL " NULL"] in
        Table._build_where_clause self =
          Ok (Composed [SQL " WHERE ";
                        join " AND " (cs_before ++ entry :: cs_after)])
        /\ placeholders entry = 0
        /\ as_string entry =
             (quote_ident column ++ " " ++ operator ++ " NULL")%string
        /\ Table._get_filter_values self = Ok (ps_before ++ ps_after)).
Proof.
  intros Hf Hb Ha.
  destruct (conditions_values _ _ Hb) as (pb & Hpb & _).
  destruct (conditions_values _ _ Ha) as (pa & Hpa & _).
  exists pb, pa. do 2 (split; [assumption|]). split.
  - intros items Hin Hit entry.
    assert (Hc : Table.condition (column, operator, v) = Ok entry).
    { unfold Table.condition. rewrite Hin, (iter_len _ _ Hit). reflexivity. }
    split; [exact (where_clause_of_conditions _ _ _ _ _ _ _ Hf Hb Hc Ha)|].
    split.
    { unfold entry. cbn [placeholders map].
      rewrite placeholders_join, placeholders_repeat. simpl. lia. }
    split.
    { unfold entry. rewrite !as_string_Composed_cons, as_string_join,
        as_string_repeat. cbn [as_string map String.concat].
      now rewrite append_empty_r. }
    unfold Table._get_filter_values. rewrite Hf.
    apply filter_values_loop_app; [assumption|].
    apply filter_values_loop_cons; [|assumption].
    unfold Table.entry_values. now rewrite Hin.
  - intros His -> entry.
    pose proof (is_operator_not_in _ His) as Hin.
    assert (Hc : Table.condition (column, operator, VNone) = Ok entry).
    { unfold Table.condition. rewrite Hin, His. reflexivity. }
    split; [exact (where_clause_of_conditions _ _ _ _ _ _ _ Hf Hb Hc Ha)|].
    split; [reflexivity|]. split.
    { unfold entry. rewrite !as_string_Composed_cons.
      cbn [as_string map String.concat]. reflexivity. }
    unfold Table._get_filter_values. rewrite Hf.
    apply filter_values_loop_app; [assumption|].
    apply (filter_values_loop_cons _ _ []); [|assumption].
    unfold Table.entry_values. now rewrite Hin, His.
Qed.

Lemma where_entry_placeholders_and_params_witness :
  Table._build_where_clause Sample.filtered =
    Ok (Composed
          [SQL " WHERE ";
           join " AND "
             [Composed [Identifier "a"; SQL " "; SQL "="; SQL " ";
                        Placeholder];
              Composed [Identifier "b"; SQL " "; SQL "IN"; SQL " (";
                        join ", " (mul Placeholder 2); SQL ")"];
              Composed [Identifier "c"; SQL " "; SQL "IS"; SQL " NULL"]]])
  /\ Table._get_filter_values Sample.filtered =
       Ok [VInt 1; VInt 2; VInt 3].
Proof.
  destruct (where_entry_placeholders_and_params Sample.filtered
              [("a", "=", VInt 1)] [("c", "IS", VNone)]
              "b" "IN" (VTuple [VInt 2; VInt 3]) _ _
              eq_refl eq_refl eq_refl)
    as (pb & pa & Hb & Ha & Hin & _).
  destruct (Hin [VInt 2; VInt 3] eq_refl eq_refl) as (Hw & _ & _ & Hv).
  inversion Hb; inversion Ha; subst pb pa.
  split; [exact Hw | exact Hv].
Defined.

(** ** SELECT *)

Lemma table_identifier_text (self : Table.t) :
  exists relation,
    Table._get_table_identifier self = Ok relation
    /\ as_string relation =
         match Table.schema self with
         | Some (String a s) =>
             (quote_ident (String a s) ++ "."
                ++ quote_ident (Table.table_name self))%string
         | _ => quote_ident (Table.table_name self)
         end.
Proof.
  unfold Table._get_table_identifier.
  destruct (Table.schema self) as [[|a s]|]; simpl;
    eexists; split; reflexivity.
Qed.

Lemma order_terms_ok (l : list (string * string)) :
  mapM (fun cd : string * string =>
          format "{} {}" [Identifier (fst cd); SQL (snd cd)]) l =
    Ok (map (fun cd : string * string =>
               Composed [Identifier (fst cd); SQL " "; SQL (snd cd)]) l).
Proof.
  induction l as [|cd l IH]; simpl; [reflexivity|].
  simpl in IH. rewrite IH. reflexivity.
Qed.

Lemma order_by_clause_text (self : Table.t) :
  exists ordering,
    Table._build_order_by_clause self = Ok ordering
    /\ as_string ordering =
         match Table._order_by self with
         | [] => EmptyString
         | terms =>
             (" ORDER BY "
                ++ String.concat ", "
                     (map (fun cd : string * string =>
                             quote_ident (fst cd) ++ " " ++ snd cd) terms))%string
         end.
Proof.
  unfold Table._build_order_by_clause.
  destruct (Table._order_by self) as [|cd l] eqn:E.
  - eexists; split; reflexivity.
  - cbn [truthy_list negb]. rewrite order_terms_ok.
    exists (Composed
              [SQL " ORDER BY ";
               join ", "
                 (map (fun cd0 : string * string =>
                         Composed [Identifier (fst cd0); SQL " ";
                                   SQL (snd cd0)]) (cd :: l))]).
    split; [reflexivity|].
    rewrite as_string_Composed.
    set (terms := map _ (cd :: l)). cbn [fold_right map]. subst terms.
    rewrite as_string_join, map_map, append_empty_r.
    reflexivity.
Qed.

Lemma where_clause_shape (self : Table.t) (w : Composable) :
  Table._build_where_clause self = Ok w ->
  match Table._filters self with
  | [] => w = SQL EmptyString
  | _ => exists cs, mapM Table.condition (Table._filters self) = Ok cs
                    /\ w = Composed [SQL " WHERE "; join " AND " cs]
  end.
Proof.
  unfold Table._build_where_clause.
  destruct (Table._filters self) as [|f l]; cbn [truthy_list negb].
  - intros H; now inversion H.
  - intros H. apply bind_Ok in H as (cs & Hcs & H).
    exists cs. split; [assumption|]. now inversion H.
Qed.

Lemma select_clause_text (columns : list string) :
  as_string
    (if list_eq_dec string_dec columns ["*"] then SQL "*"
     else join ", " (map Identifier columns)) =
  if list_eq_dec string_dec columns ["*"] then "*"%string
  else String.concat ", " (map quote_ident columns).
Proof.
  destruct (list_eq_dec string_dec columns ["*"]); [reflexivity|].
  now rewrite as_string_join, map_map.
Qed.

(** C7. A SELECT is compiled with its clauses in one order: projection,
    relation, then the WHERE, ORDER BY, LIMIT and OFFSET clauses, each
    empty when unused; its parameters are those of the WHERE clause, then
    the limit when one is set, then the offset when one is set.  With no
    filter, limit 10 and offset 5 the parameters are [10, 5] whatever the
    projection and the ordering. *)
Theorem select_clause_and_parameter_order (self : Table.t) :
  (forall (w : Composable) (ps : list value),
     Table._build_where_clause self = Ok w ->
     Table._get_filter_values self = Ok ps ->
     exists query,
       Table.execute_statement self =
         Ok (query,
             ps ++ (if is_None (Table._limit self) then []
                    else [Table._limit self])
                ++ (if is_None (Table._offset self) then []
                    else [Table._offset self]))
       /\ as_string query =
            ("SELECT "
               ++ (if list_eq_dec string_dec (Table._select_columns self) ["*"]
                   then "*"
                   else String.concat ", "
                          (map quote_ident (Table._select_columns self)))
               ++ " FROM "
               ++ match Table.schema self with
                  | Some (String a s) =>
                      quote_ident (String a s) ++ "."
                        ++ quote_ident (Table.table_name self)
                  | _ => quote_ident (Table.table_name self)
                  end
               ++ " " ++ as_string w
               ++ " "
               ++ match Table._order_by self with
                  | [] => EmptyString
                  | terms =>
                      " ORDER BY "
                        ++ String.concat ", "
                             (map (fun cd : string * string =>
                                     quote_ident (fst cd) ++ " " ++ snd cd)
                                  terms)
                  end
               ++ " "
               ++ (if is_None (Table._limit self) then EmptyString
                   else " LIMIT %s")
               ++ " "
               ++ (if is_None (Table._offset self) then EmptyString
                   else " OFFSET %s"))%string
       /\ match Table._filters self with
          | [] => w = SQL EmptyString
          | _ => exists cs, w = Composed [SQL " WHERE "; join " AND " cs]
          end)
  /\ (Table._filters self = [] ->
      Table._limit self = VInt 10 ->
      Table._offset self = VInt 5 ->
      exists query,
        Table.execute_statement self = Ok (query, [VInt 10; VInt 5])).
Proof.
  assert (F : forall c, format "SELECT {} FROM" [c] =
                        Ok (Composed [SQL "SELECT "; c; SQL " FROM"]))
    by reflexivity.
  destruct (table_identifier_text self) as (relation & Hrel & Trel).
  destruct (order_by_clause_text self) as (ordering & Hord & Tord).
  split.
  - intros w ps Hw Hps. unfold Table.execute_statement.
    rewrite F, Hrel, Hw, Hord, Hps. cbn [Py.bind filter Table.truthy_composable].
    eexists. split; [|split].
    + f_equal. f_equal.
      destruct (is_None (Table._limit self)),
        (is_None (Table._offset self)); cbn [negb app];
        rewrite ?app_nil_r, <- ?app_assoc; reflexivity.
    + rewrite as_string_join. cbn [map String.concat].
      rewrite as_string_Composed. cbn [map fold_right].
      rewrite select_clause_text, Trel, Tord.
      unfold Table._build_limit_clause, Table._build_offset_clause.
      destruct (is_None (Table._limit self)),
        (is_None (Table._offset self)); cbn [negb as_string];
        rewrite !append_assoc; reflexivity.
    + pose proof (where_clause_shape _ _ Hw) as S.
      destruct (Table._filters self); [assumption|].
      destruct S as (cs & _ & S). now exists cs.
  - intros Hf Hl Ho. unfold Table.execute_statement.
    rewrite F, Hrel, Hord. unfold Table._build_where_clause,
      Table._get_filter_values. rewrite Hf, Hl, Ho.
    cbn. eexists; reflexivity.
Qed.

Lemma select_clause_and_parameter_order_witness :
  (exists query,
     Table.execute_statement Sample.paged = Ok (query, [VInt 10; VInt 5]))
  /\ (exists query,
        Table.execute_statement Sample.filtered =
          Ok (query, [VInt 1; VInt 2; VInt 3])
        /\ as_string query =
             ("SELECT * FROM " ++ quote_ident "users"
                ++ "  WHERE " ++ quote_ident "a" ++ " = %s AND "
                ++ quote_ident "b" ++ " IN (%s, %s) AND "
                ++ quote_ident "c" ++ " IS NULL   ")%string).
Proof.
  split.
  - apply (select_clause_and_parameter_order Sample.paged); reflexivity.
  - destruct (proj1 (select_clause_and_parameter_order Sample.filtered)
                _ _ eq_refl eq_refl) as (query & Hq & Ht & _).
    exists query. split; [exact Hq | exact Ht].
Defined.

(** ** INSERT and UPSERT payloads *)

Lemma relation_ok (self : Table.t) :
  exists relation, Table._get_table_identifier self = Ok relation.
Proof.
  destruct (table_identifier_text self) as (relation & H & _). eauto.
Qed.

Lemma excluded_items_ok (cols : list string) :
  Table.excluded_items cols =
    Ok (map (fun col =>
               Composed [Identifier col; SQL " = EXCLUDED."; Identifier col])
            cols).
Proof.
  unfold Table.excluded_items.
  induction cols as [|col cols IH]; simpl; [reflexivity|].
  simpl in IH. rewrite IH. reflexivity.
Qed.

Lemma update_columns_spec (columns conflict_columns : list string)
    (col : string) :
  In col (Table.update_columns columns conflict_columns) <->
  In col columns /\ ~ In col conflict_columns.
Proof.
  unfold Table.update_columns. rewrite filter_In, negb_true_iff.
  split; intros [Hc Hn]; split; try assumption.
  - intros Hin.
    assert (existsb (String.eqb col) conflict_columns = true).
    { apply existsb_exists. exists col. split; [assumption|].
      apply String.eqb_refl. }
    congruence.
  - destruct (existsb (String.eqb col) conflict_columns) eqn:E;
      [|reflexivity].
    apply existsb_exists in E as (x & Hx & Heq).
    apply String.eqb_eq in Heq. subst x. contradiction.
Qed.

(** C8. For a payload that compiles (at least one row, every row holding
    the columns of the first), the [DO UPDATE SET] clause of an UPSERT is
    the comma-joined list of [col = EXCLUDED.col], in payload order, for
    the payload columns that are not conflict columns, and for no other
    column. *)
Theorem upsert_updates_non_conflict_columns
    (self : Table.t) (data : Table.payload) (conflict_columns : list string)
    (first : dict) (others : list dict) (values : list (list value)) :
  Table.as_rows data = first :: others ->
  Table.row_values (keys first) (first :: others) = Ok values ->
  exists relation,
    Table._get_table_identifier self = Ok relation
    /\ Table.upsert_statement self data conflict_columns =
         Ok (Composed
               [SQL "INSERT INTO "; relation; SQL " (";
                join ", " (map Identifier (keys first));
                SQL ") VALUES ";
                join ", " (mul Placeholder (List.length (first :: others)));
                SQL " ON CONFLICT (";
                join ", " (map Identifier conflict_columns);
                SQL ") DO UPDATE SET ";
                join ", "
                  (map (fun col =>
                          Composed [Identifier col; SQL " = EXCLUDED.";
                                    Identifier col])
                       (Table.update_columns (keys first) conflict_columns));
                SQL " RETURNING *"],
             map VTuple values)
    /\ as_string
         (join ", "
            (map (fun col =>
                    Composed [Identifier col; SQL " = EXCLUDED.";
                              Identifier col])
                 (Table.update_columns (keys first) conflict_columns))) =
       String.concat ", "
         (map (fun col =>
                 (quote_ident col ++ " = EXCLUDED." ++ quote_ident col)%string)
              (Table.update_columns (keys first) conflict_columns))
    /\ (forall col,
          In col (Table.update_columns (keys first) conflict_columns) <->
          In col (keys first) /\ ~ In col conflict_columns).
Proof.
  intros Hd Hv. destruct (relation_ok self) as (relation & Hrel).
  exists relation. split; [assumption|]. split; [|split].
  - unfold Table.upsert_statement. rewrite Hd. cbn [Table.first_keys Py.bind].
    rewrite Hv, Hrel, excluded_items_ok. reflexivity.
  - rewrite as_string_join, map_map. reflexivity.
  - intros col. apply update_columns_spec.
Qed.

Lemma upsert_updates_non_conflict_columns_witness :
  Table.update_columns ["id"; "name"] ["id"] = ["name"]
  /\ exists relation,
       Table.upsert_statement Sample.users
         (Table.Row [("id", VInt 1); ("name", VStr "x")]) ["id"] =
         Ok (Composed
               [SQL "INSERT INTO "; relation; SQL " (";
                join ", " [Identifier "id"; Identifier "name"];
                SQL ") VALUES "; join ", " [Placeholder];
                SQL " ON CONFLICT ("; join ", " [Identifier "id"];
                SQL ") DO UPDATE SET ";
                join ", "
                  [Composed [Identifier "name"; SQL " = EXCLUDED.";
                             Identifier "name"]];
                SQL " RETURNING *"],
             [VTuple [VInt 1; VStr "x"]]).
Proof.
  split; [reflexivity|].
  destruct (upsert_updates_non_conflict_columns Sample.users
              (Table.Row [("id", VInt 1); ("name", VStr "x")]) ["id"]
              [("id", VInt 1); ("name", VStr "x")] []
              [[VInt 1; VStr "x"]] eq_refl eq_refl)
    as (relation & _ & H & _).
  exists relation. exact H.
Defined.

Lemma getitem_cases (d : dict) (k : string) :
  (exists v, getitem d k = Ok v) \/ getitem d k = Raise (KeyError k).
Proof.
  induction d as [|[k' v] d IH]; simpl; [now right|].
  destruct (String.eqb k' k); [left; now exists v | exact IH].
Qed.

Lemma getitem_keys (d : dict) (k : string) :
  In k (keys d) -> exists v, getitem d k = Ok v.
Proof.
  induction d as [|[k' v] d IH]; simpl; [contradiction|].
  intros [->|H].
  - rewrite String.eqb_refl. now exists v.
  - destruct (String.eqb k' k); [now exists v | exact (IH H)].
Qed.

(** Reading the columns of one row: all of them, or [KeyError] for the
    first one the row lacks. *)
Lemma row_present (row : dict) (columns : list string) :
  (forall col, In col columns -> exists v, getitem row col = Ok v) ->
  exists vs, mapM (fun col => getitem row col) columns = Ok vs
             /\ List.length vs = List.length columns.
Proof.
  induction columns as [|c columns IH]; intros H; simpl.
  - now exists [].
  - destruct (H c (or_introl eq_refl)) as (v & ->).
    destruct IH as (vs & -> & Hl); [intros; apply H; now right|].
    exists (v :: vs). simpl. now rewrite Hl.
Qed.

Lemma row_missing (row : dict) (columns : list string) (col : string) :
  In col columns -> getitem row col = Raise (KeyError col) ->
  exists k, In k columns
            /\ mapM (fun col => getitem row col) columns =
                 Raise (KeyError k).
Proof.
  induction columns as [|c columns IH]; simpl; [contradiction|].
  intros Hin Hm. destruct (getitem_cases row c) as [(v & Hv)|Hc].
  - rewrite Hv. simpl. destruct Hin as [->|Hin]; [congruence|].
    destruct (IH Hin Hm) as (k & Hk & ->). exists k. auto.
  - rewrite Hc. exists c. auto.
Qed.

Lemma row_cases (row : dict) (columns : list string) :
  (exists vs, mapM (fun col => getitem row col) columns = Ok vs)
  \/ (exists k, In k columns
                /\ mapM (fun col => getitem row col) columns =
                     Raise (KeyError k)).
Proof.
  induction columns as [|c columns IH]; simpl; [left; now exists []|].
  destruct (getitem_cases row c) as [(v & ->) | ->]; simpl.
  - destruct IH as [(vs & ->)|(k & Hk & ->)]; simpl.
    + left. now exists (v :: vs).
    + right. exists k. auto.
  - right. exists c. auto.
Qed.

Lemma row_values_present (columns : list string) (rows : list dict) :
  (forall row col, In row rows -> In col columns ->
                   exists v, getitem row col = Ok v) ->
  exists values,
    Table.row_values columns rows = Ok values
    /\ List.length values = List.length rows
    /\ Forall (fun vs => List.length vs = List.length columns) values.
Proof.
  unfold Table.row_values.
  induction rows as [|row rows IH]; intros H.
  - exists []. auto.
  - destruct (row_present row columns) as (vs & Hvs & Hl);
      [intros; apply H; simpl; auto|].
    destruct IH as (values & Hvalues & Hn & Hall);
      [intros; apply H; simpl; auto|].
    exists (vs :: values). cbn [mapM]. rewrite Hvs, Hvalues. simpl. auto.
Qed.

Lemma row_values_missing (columns : list string) (rows : list dict)
    (row : dict) (col : string) :
  In row rows -> In col columns ->
  getitem row col = Raise (KeyError col) ->
  exists k, In k columns
            /\ Table.row_values columns rows = Raise (KeyError k).
Proof.
  unfold Table.row_values.
  induction rows as [|r rows IH]; [contradiction|].
  intros Hr Hc Hm. cbn [mapM].
  destruct (row_cases r columns) as [(vs & Hvs)|(k & Hk & E)].
  - rewrite Hvs. destruct Hr as [->|Hr].
    + destruct (row_missing _ _ _ Hc Hm) as (k & _ & E). congruence.
    + destruct (IH Hr Hc Hm) as (k & Hk & E). rewrite E. exists k. auto.
  - rewrite E. exists k. auto.
Qed.

(** A terminal operation whose statement cannot be built raises without
    touching the connection; otherwise exactly one statement reaches the
    driver. *)
Lemma statement_raises {A} (build : result (Composable * list value))
    (run : Composable * list value -> Db.DB A) (e : exn)
    (log : list Db.statement) :
  build = Raise e ->
  Db.bind (Db.lift build) run log = (Raise e, log).
Proof. intros ->. reflexivity. Qed.

Lemma statement_sent (drv : Db.driver)
    (build : result (Composable * list value))
    (query : Composable) (params : list value) (log : list Db.statement) :
  build = Ok (query, params) ->
  Db.bind (Db.lift build)
          (fun st => Db.cursor_execute drv (fst st) (snd st)) log =
    (match drv log (as_string query, params) with
     | inl e => Raise (Driver e)
     | inr rows => Ok rows
     end, log ++ [(as_string query, params)]).
Proof. intros ->. reflexivity. Qed.

(** C4 as stated fails: a later row with a key the first row lacks is
    accepted, the extra key dropped and the statement executed; a later
    row that lacks a key of the first row raises [KeyError]. *)
Lemma divergent_rows_counterexample :
  Table.insert (Sample.answers []) Sample.users
    (Table.Rows [[("a", VInt 1)]; [("a", VInt 2); ("b", VInt 3)]]) [] =
    (Ok [],
     [(("INSERT INTO " ++ quote_ident "users" ++ " (" ++ quote_ident "a"
          ++ ") VALUES %s, %s RETURNING *")%string,
       [VTuple [VInt 1]; VTuple [VInt 2]])])
  /\ Table.insert (Sample.answers []) Sample.users
       (Table.Rows [[("a", VInt 1); ("b", VInt 2)]; [("a", VInt 3)]]) [] =
       (Raise (KeyError "b"), [])
  /\ Table.upsert (Sample.answers []) Sample.users
       (Table.Rows [[("a", VInt 1); ("b", VInt 2)]; [("a", VInt 3)]])
       ["a"] [] =
       (Raise (KeyError "b"), []).
Proof. repeat split; reflexivity. Qed.

Lemma row_values_cases (columns : list string) (rows : list dict) :
  (exists values, Table.row_values columns rows = Ok values)
  \/ (exists k, In k columns
                /\ Table.row_values columns rows = Raise (KeyError k)).
Proof.
  unfold Table.row_values.
  induction rows as [|row rows IH]; [left; now exists []|].
  cbn [mapM].
  destruct (row_cases row columns) as [(vs & Hvs)|(k & Hk & E)].
  - rewrite Hvs. cbn [Py.bind].
    destruct IH as [(values & ->)|(k & Hk & ->)].
    + left. eexists; reflexivity.
    + right. exists k. auto.
  - rewrite E. right. exists k. auto.
Qed.

Lemma set_items_ok (names : list string) :
  mapM (fun k => format "{} = {}" [Identifier k; Placeholder]) names =
    Ok (map (fun k => Composed [Identifier k; SQL " = "; Placeholder]) names).
Proof.
  induction names as [|k names IH]; simpl; [reflexivity|].
  simpl in IH. rewrite IH. reflexivity.
Qed.

(** Building the statement of an INSERT or UPSERT raises nothing but
    [IndexError] and [KeyError]; building the statement of an UPDATE
    raises nothing but [TypeError]. *)
Lemma insert_statement_errors (self : Table.t) (data : Table.payload)
    (e : exn) :
  Table.insert_statement self data = Raise e ->
  e = IndexError \/ exists k, e = KeyError k.
Proof.
  unfold Table.insert_statement.
  destruct (Table.as_rows data) as [|first others]; cbn [Table.first_keys];
    [cbn; intros H; left; congruence|].
  cbn [Py.bind].
  destruct (row_values_cases (keys first) (first :: others))
    as [(values & ->)|(k & _ & ->)].
  - destruct (relation_ok self) as (relation & ->). discriminate.
  - cbn. intros H. right. exists k. congruence.
Qed.

Lemma upsert_statement_errors (self : Table.t) (data : Table.payload)
    (conflict_columns : list string) (e : exn) :
  Table.upsert_statement self data conflict_columns = Raise e ->
  e = IndexError \/ exists k, e = KeyError k.
Proof.
  unfold Table.upsert_statement.
  destruct (Table.as_rows data) as [|first others]; cbn [Table.first_keys];
    [cbn; intros H; left; congruence|].
  cbn [Py.bind].
  destruct (row_values_cases (keys first) (first :: others))
    as [(values & ->)|(k & _ & ->)].
  - destruct (relation_ok self) as (relation & ->).
    cbn [Py.bind]. rewrite excluded_items_ok. discriminate.
  - cbn. intros H. right. exists k. congruence.
Qed.

Lemma update_statement_errors (self : Table.t) (data : dict) (e : exn) :
  Table.update_statement self data = Raise e -> e = TypeError.
Proof.
  unfold Table.update_statement. rewrite set_items_ok. cbn [Py.bind].
  destruct (relation_ok self) as (relation & ->). cbn [Py.bind].
  destruct (Table._build_where_clause self) as [w|e'] eqn:Hw.
  - cbn [Py.bind].
    change (format "UPDATE {} SET {} {} RETURNING *" [?a; ?b; ?c]) with
      (Ok (Composed [SQL "UPDATE "; a; SQL " SET "; b; SQL " "; c;
                     SQL " RETURNING *"])).
    cbn [Py.bind].
    destruct (Table._get_filter_values self) as [ps|e''] eqn:Hps;
      [discriminate|].
    cbn. intros H. injection H as <-. exact (filter_values_errors _ _ Hps).
  - cbn. intros H. injection H as <-. exact (where_clause_errors _ _ Hw).
Qed.

(** What the caller of a terminal operation without handler sees once
    the statement is built. *)
Lemma sent_statement_outcome (drv : Db.driver)
    (build : result (Composable * list value)) (log : list Db.statement)
    (e : exn) :
  (forall e', build = Raise e' -> e' <> e) ->
  (forall d, e <> Driver d) ->
  fst (Db.bind (Db.lift build)
               (fun st => Db.cursor_execute drv (fst st) (snd st)) log)
    <> Raise e.
Proof.
  intros Hb Hd. unfold Db.bind, Db.lift, Db.cursor_execute.
  destruct build as [[query params]|e'].
  - cbn [fst snd]. destruct (drv log (as_string query, params)) as [d|rows];
      [|discriminate]. intros H. injection H as H. exact (Hd d (eq_sym H)).
  - cbn [fst]. intros H. injection H as H. exact (Hb e' eq_refl H).
Qed.

(** C4, amended.  An INSERT or UPSERT never raises
    [SchemaMismatchError].  Its columns are the keys of the first row.
    When a later row lacks one of them the operation raises [KeyError]
    for such a key and no statement reaches the driver.  When every later
    row holds them all, whatever other keys it has, exactly one statement
    is executed and its outcome returned: the columns of its text are the
    first row's keys, and its parameters are one tuple per row, made of
    the row's values for the first row's keys. *)
Theorem rows_are_read_by_first_row_keys
    (drv : Db.driver) (self : Table.t) (data : Table.payload)
    (conflict_columns : list string) (log : list Db.statement) :
  fst (Table.insert drv self data log) <> Raise SchemaMismatchError
  /\ fst (Table.upsert drv self data conflict_columns log) <>
       Raise SchemaMismatchError
  /\ forall (first : dict) (others : list dict),
       Table.as_rows data = first :: others ->
       ((exists row col,
           In row others /\ In col (keys first)
           /\ getitem row col = Raise (KeyError col)) ->
        exists k,
          In k (keys first)
          /\ Table.insert drv self data log = (Raise (KeyError k), log)
          /\ Table.upsert drv self data conflict_columns log =
               (Raise (KeyError k), log))
       /\ ((forall row col,
              In row others -> In col (keys first) ->
              exists v, getitem row col = Ok v) ->
           exists relation values,
             Table._get_table_identifier self = Ok relation
             /\ Table.row_values (keys first) (first :: others) = Ok values
             /\ List.length values = List.length (first :: others)
             /\ Forall (fun vs => List.length vs = List.length (keys first))
                       values
             /\ (let st :=
                   (as_string
                      (Composed
                         [SQL "INSERT INTO "; relation; SQL " (";
                          join ", " (map Identifier (keys first));
                          SQL ") VALUES ";
                          join ", "
                            (mul Placeholder
                                 (List.length (first :: others)));
                          SQL " RETURNING *"]),
                    map VTuple values) in
                 Table.insert drv self data log =
                   (match drv log st with
                    | inl e => Raise (Driver e)
                    | inr rows => Ok rows
                    end, log ++ [st]))
             /\ (let st :=
                   (as_string
                      (Composed
                         [SQL "INSERT INTO "; relation; SQL " (";
                          join ", " (map Identifier (keys first));
                          SQL ") VALUES ";
                          join ", "
                            (mul Placeholder
                                 (List.length (first :: others)));
                          SQL " ON CONFLICT (";
                          join ", " (map Identifier conflict_columns);
                          SQL ") DO UPDATE SET ";
                          join ", "
                            (map (fun col =>
                                    Composed
                                      [Identifier col; SQL " = EXCLUDED.";
                                       Identifier col])
                                 (Table.update_columns (keys first)
                                    conflict_columns));
                          SQL " RETURNING *"]),
                    map VTuple values) in
                 Table.upsert drv self data conflict_columns log =
                   (match drv log st with
                    | inl e => Raise (Driver e)
                    | inr rows => Ok rows
                    end, log ++ [st]))).
Proof.
  split; [|split].
  - apply sent_statement_outcome; [|discriminate].
    intros e' H. destruct (insert_statement_errors _ _ _ H) as [->|(k & ->)];
      discriminate.
  - apply sent_statement_outcome; [|discriminate].
    intros e' H.
    destruct (upsert_statement_errors _ _ _ _ H) as [->|(k & ->)];
      discriminate.
  - intros first others Hd.
    destruct (relation_ok self) as (relation & Hrel). split.
    + intros (row & col & Hrow & Hcol & Hm).
      destruct (row_values_missing (keys first) (first :: others) row col)
        as (k & Hk & E); [now right | assumption | assumption |].
      exists k. split; [assumption|].
      split; apply statement_raises.
      * unfold Table.insert_statement. rewrite Hd.
        cbn [Table.first_keys Py.bind]. now rewrite E.
      * unfold Table.upsert_statement. rewrite Hd.
        cbn [Table.first_keys Py.bind]. now rewrite E.
    + intros Hall.
      destruct (row_values_present (keys first) (first :: others))
        as (values & E & Hn & Hl).
      { intros row col [<-|Hrow] Hcol; [now apply getitem_keys | eauto]. }
      exists relation, values. do 4 (split; [assumption|]). split.
      * cbv zeta. unfold Table.insert. apply statement_sent.
        unfold Table.insert_statement. rewrite Hd.
        cbn [Table.first_keys Py.bind]. rewrite E, Hrel. reflexivity.
      * cbv zeta. unfold Table.upsert. apply statement_sent.
        unfold Table.upsert_statement. rewrite Hd.
        cbn [Table.first_keys Py.bind].
        rewrite E, Hrel, excluded_items_ok. reflexivity.
Qed.

Lemma rows_are_read_by_first_row_keys_witness :
  (exists k,
     Table.insert (Sample.answers []) Sample.users
       (Table.Rows [[("a", VInt 1); ("b", VInt 2)]; [("a", VInt 3)]]) [] =
       (Raise (KeyError k), []))
  /\ Table.insert (Sample.answers []) Sample.users
       (Table.Rows [[("a", VInt 1)]; [("a", VInt 2); ("b", VInt 3)]]) [] =
       (Ok [],
        [(("INSERT INTO " ++ quote_ident "users" ++ " (" ++ quote_ident "a"
             ++ ") VALUES %s, %s RETURNING *")%string,
          [VTuple [VInt 1]; VTuple [VInt 2]])]).
Proof.
  split.
  - destruct (proj1 (proj2 (proj2 (rows_are_read_by_first_row_keys
                       (Sample.answers []) Sample.users
                       (Table.Rows [[("a", VInt 1); ("b", VInt 2)];
                                    [("a", VInt 3)]])
                       [] []))
                       [("a", VInt 1); ("b", VInt 2)] [[("a", VInt 3)]]
                       eq_refl))
      as (k & _ & H & _).
    + exists [("a", VInt 3)], "b". repeat split; simpl; auto.
    + exists k. exact H.
  - destruct (proj2 (proj2 (proj2 (rows_are_read_by_first_row_keys
                       (Sample.answers []) Sample.users
                       (Table.Rows [[("a", VInt 1)];
                                    [("a", VInt 2); ("b", VInt 3)]])
                       [] []))
                       [("a", VInt 1)] [[("a", VInt 2); ("b", VInt 3)]]
                       eq_refl))
      as (relation & values & Hrel & Hv & _ & _ & H & _).
    + intros row col [<-|[]] [<-|[]]. now exists (VInt 2).
    + inversion Hrel; inversion Hv; subst relation values. exact H.
Defined.

(** ** Empty payloads *)

(** C5 as stated fails: an UPDATE with an empty mapping is compiled and
    executed, and an INSERT or UPSERT of zero rows raises [IndexError]. *)
Lemma empty_payload_counterexample :
  Table.update (Sample.answers []) Sample.users [] [] =
    (Ok [],
     [(("UPDATE " ++ quote_ident "users" ++ " SET   RETURNING *")%string,
       [])])
  /\ Table.insert (Sample.answers []) Sample.users (Table.Rows []) [] =
       (Raise IndexError, [])
  /\ Table.upsert (Sample.answers []) Sample.users (Table.Rows []) ["id"]
       [] =
       (Raise IndexError, []).
Proof. repeat split; reflexivity. Qed.

(** C5, amended.  No terminal operation raises [EmptyPayloadError].  An
    INSERT or UPSERT of zero rows raises [IndexError] and no statement
    reaches the driver.  An UPDATE with an empty mapping is not rejected:
    whenever the filters compile, the statement
    [UPDATE relation SET  where RETURNING *], with an empty assignment
    list and the WHERE parameters, is handed to the driver, and the
    driver's outcome is what the caller gets. *)
Theorem empty_payloads_are_not_validated
    (drv : Db.driver) (self : Table.t) (conflict_columns : list string)
    (log : list Db.statement) :
  Table.insert drv self (Table.Rows []) log = (Raise IndexError, log)
  /\ Table.upsert drv self (Table.Rows []) conflict_columns log =
       (Raise IndexError, log)
  /\ (forall (w : Composable) (ps : list value),
        Table._build_where_clause self = Ok w ->
        Table._get_filter_values self = Ok ps ->
        exists relation,
          Table._get_table_identifier self = Ok relation
          /\ (let st :=
                (("UPDATE " ++ as_string relation ++ " SET  "
                    ++ as_string w ++ " RETURNING *")%string, ps) in
              Table.update drv self [] log =
                (match drv log st with
                 | inl e => Raise (Driver e)
                 | inr rows => Ok rows
                 end, log ++ [st])))
  /\ (forall (data : Table.payload) (mapping : dict),
        fst (Table.insert drv self data log) <> Raise EmptyPayloadError
        /\ fst (Table.upsert drv self data conflict_columns log) <>
             Raise EmptyPayloadError
        /\ fst (Table.update drv self mapping log) <>
             Raise EmptyPayloadError).
Proof.
  split; [reflexivity|]. split; [reflexivity|]. split.
  - intros w ps Hw Hps. destruct (relation_ok self) as (relation & Hrel).
    exists relation. split; [assumption|]. cbv zeta.
    unfold Table.update.
    erewrite statement_sent;
      [|unfold Table.update_statement; cbn [keys map mapM Py.bind];
        rewrite Hrel, Hw, Hps; reflexivity].
    reflexivity.
  - intros data mapping. split; [|split];
      (apply sent_statement_outcome; [|discriminate]); intros e' H.
    + destruct (insert_statement_errors _ _ _ H) as [->|(k & ->)];
        discriminate.
    + destruct (upsert_statement_errors _ _ _ _ H) as [->|(k & ->)];
        discriminate.
    + rewrite (update_statement_errors _ _ _ H). discriminate.
Qed.

Lemma empty_payloads_are_not_validated_witness :
  exists relation,
    Table._get_table_identifier Sample.filtered = Ok relation
    /\ Table.update (Sample.answers [[("a", VInt 1)]]) Sample.filtered []
         [] =
         (Ok [[("a", VInt 1)]],
          [(("UPDATE " ++ as_string relation ++ " SET  "
               ++ (" WHERE " ++ quote_ident "a" ++ " = %s AND "
                     ++ quote_ident "b" ++ " IN (%s, %s) AND "
                     ++ quote_ident "c" ++ " IS NULL")
               ++ " RETURNING *")%string,
            [VInt 1; VInt 2; VInt 3])]).
Proof.
  destruct (empty_payloads_are_not_validated
              (Sample.answers [[("a", VInt 1)]]) Sample.filtered [] [])
    as (_ & _ & H & _).
  exact (H _ _ eq_refl eq_refl).
Defined.

(** ** Appending filters *)

(** C1 as stated fails: [_add_filter] stores IS with a non-null operand
    and IN with a scalar; [in_] with a scalar raises [TypeError]; the
    scalar stored under IN only fails when the WHERE clause is built. *)
Lemma mismatched_operand_counterexample :
  Chain.step (Chain._add_filter "a" "IS" (VInt 1)) Sample.users =
    Ok (Table.mk None "users" [("a", "IS", VInt 1)] ["*"] [] VNone VNone)
  /\ Chain.step (Chain._add_filter "a" "IN" (VInt 5)) Sample.users =
       Ok (Table.mk None "users" [("a", "IN", VInt 5)] ["*"] [] VNone VNone)
  /\ Chain.step (Chain.in_ "a" (VInt 5)) Sample.users = Raise TypeError
  /\ Table._build_where_clause
       (Table._add_filter Sample.users "a" "IN" (VInt 5)) = Raise TypeError.
Proof. repeat split; reflexivity. Qed.

(** C1, amended.  Appending a filter validates nothing and never raises
    [InvalidFilterError]: [_add_filter] stores any operator with any
    operand at the end of the filters; [is_null] and [is_not_null] take no
    operand and store [None]; [in_] and [not_in] store [tuple(values)], so
    that an operand that cannot be iterated raises [TypeError] at the call
    and every operand that can is accepted. *)
Theorem filter_append_performs_no_validation (self : Table.t) :
  (forall column operator v,
     Chain.step (Chain._add_filter column operator v) self =
       Ok (Table._add_filter self column operator v)
     /\ Table._filters (Table._add_filter self column operator v) =
          Table._filters self ++ [(column, operator, v)])
  /\ (forall column,
        Table._filters (Table.is_null self column) =
          Table._filters self ++ [(column, "IS", VNone)]
        /\ Table._filters (Table.is_not_null self column) =
             Table._filters self ++ [(column, "IS NOT", VNone)])
  /\ (forall column vs,
        Table.in_ self column vs =
          match iter vs with
          | Ok items => Ok (Table._add_filter self column "IN" (VTuple items))
          | Raise _ => Raise TypeError
          end
        /\ Table.not_in self column vs =
             match iter vs with
             | Ok items =>
                 Ok (Table._add_filter self column "NOT IN" (VTuple items))
             | Raise _ => Raise TypeError
             end)
  /\ (forall c, Chain.step c self <> Raise InvalidFilterError).
Proof.
  repeat split; try reflexivity.
  - unfold Table.in_, tuple. destruct vs; reflexivity.
  - unfold Table.not_in, tuple. destruct vs; reflexivity.
  - intros c H. pose proof (step_effect c self) as E. rewrite H in E.
    destruct E as (E & _). discriminate.
Qed.

(** ** Stored procedures *)

Lemma call_arguments_ok (names : list string) :
  mapM (fun k => format "{}:={}" [Identifier k; Placeholder]) names =
    Ok (map (fun k => Composed [Identifier k; SQL ":="; Placeholder]) names).
Proof.
  induction names as [|k names IH]; simpl; [reflexivity|].
  simpl in IH. rewrite IH. reflexivity.
Qed.

Lemma call_statement_ok (procedure : string) (params : option dict) :
  exists query ps, RPC.call_statement procedure params = Ok (query, ps).
Proof.
  unfold RPC.call_statement. rewrite call_arguments_ok.
  do 2 eexists. reflexivity.
Qed.

(** C2 as stated fails: a call answered with no row and a call answered
    with one row holding a null return the same value. *)
Lemma no_row_counterexample :
  RPC.call (Sample.answers []) "f" None [] =
    RPC.call (Sample.answers [[("f", VNone)]]) "f" None []
  /\ fst (RPC.call (Sample.answers []) "f" None []) = Ok VNone.
Proof. split; reflexivity. Qed.

(** C2, amended.  A call answered with zero rows returns [None], which is
    also what a call answered with one row whose value is null returns:
    the two outcomes are equal, log of statements included. *)
Theorem no_row_is_returned_as_None
    (empty nulled : Db.driver) (procedure : string) (params : option dict)
    (log : list Db.statement) :
  (forall st, empty log st = inr []) ->
  (forall st, nulled log st = inr [[(procedure, VNone)]]) ->
  fst (RPC.call empty procedure params log) = Ok VNone
  /\ RPC.call empty procedure params log =
       RPC.call nulled procedure params log.
Proof.
  intros He Hn.
  destruct (call_statement_ok procedure params) as (query & ps & E).
  unfold RPC.call, Db.bind, Db.lift, Db.cursor_execute. rewrite E.
  cbn [fst snd]. rewrite He, Hn.
  cbn [RPC.fetchone RPC.unwrap truthy_list getitem].
  rewrite String.eqb_refl. split; reflexivity.
Qed.

Lemma no_row_is_returned_as_None_witness :
  fst (RPC.call (Sample.answers []) "f" (Some [("x", VInt 1)]) []) =
    Ok VNone
  /\ RPC.call (Sample.answers []) "f" (Some [("x", VInt 1)]) [] =
       RPC.call (Sample.answers [[("f", VNone)]]) "f"
         (Some [("x", VInt 1)]) [].
Proof.
  apply (no_row_is_returned_as_None
           (Sample.answers []) (Sample.answers [[("f", VNone)]]));
    reflexivity.
Defined.

(** ** Statement timeouts *)

(** [execute] turns a cancelled statement into [TimeoutError]. *)
Lemma execute_translates_timeout (drv : Db.driver) (self : Table.t)
    (query : Composable) (params : list value) (log : list Db.statement) :
  Table.execute_statement self = Ok (query, params) ->
  drv log (as_string query, params) = inl QueryCanceled ->
  Table.execute drv self log =
    (Raise TimeoutError, log ++ [(as_string query, params)]).
Proof.
  intros E H. unfold Table.execute, Db.bind, Db.lift,
    Db.except_QueryCanceled, Db.cursor_execute.
  rewrite E. cbn [fst snd]. now rewrite H.
Qed.

(** The other terminal operations have no handler: whatever the driver
    raises is what the caller sees. *)
Lemma write_operations_do_not_translate (drv : Db.driver)
    (build : result (Composable * list value))
    (query : Composable) (params : list value) (log : list Db.statement)
    (e : driver_error) :
  build = Ok (query, params) ->
  drv log (as_string query, params) = inl e ->
  Db.bind (Db.lift build)
          (fun st => Db.cursor_execute drv (fst st) (snd st)) log =
    (Raise (Driver e), log ++ [(as_string query, params)]).
Proof.
  intros E H. rewrite (statement_sent drv build query params log E).
  now rewrite H.
Qed.

(** C3, on the code: with a driver that cancels every statement,
    [execute] raises [TimeoutError] while [insert], [upsert], [update],
    [delete] and [RPC.call] let the driver's [QueryCanceled] through. *)
Theorem timeout_is_translated_by_execute_only :
  fst (Table.execute Sample.times_out Sample.users []) = Raise TimeoutError
  /\ fst (Table.insert Sample.times_out Sample.users
            (Table.Row [("a", VInt 1)]) []) = Raise (Driver QueryCanceled)
  /\ fst (Table.upsert Sample.times_out Sample.users
            (Table.Row [("id", VInt 1); ("a", VInt 2)]) ["id"] []) =
       Raise (Driver QueryCanceled)
  /\ fst (Table.update Sample.times_out Sample.filtered
            [("a", VInt 1)] []) = Raise (Driver QueryCanceled)
  /\ fst (Table.delete Sample.times_out Sample.filtered []) =
       Raise (Driver QueryCanceled)
  /\ fst (RPC.call Sample.times_out "f" None []) =
       Raise (Driver QueryCanceled).
Proof. repeat split; reflexivity. Qed.

(* ===================================================================== *)
(** * Further properties of the module *)
(* ===================================================================== *)

(** ** WHERE clause and parameters agree *)

Lemma where_clause_placeholders (cs : list Composable) :
  placeholders (Composed [SQL " WHERE "; join " AND " cs]) =
    list_sum (map placeholders cs).
Proof.
  cbn [placeholders map list_sum fold_right].
  rewrite placeholders_join. simpl. lia.
Qed.

(** ** Builders made through the public methods *)

Lemma init_cases (name : string) :
  (contains "." name = false
   /\ Table.__init__ name =
        Ok (Table.mk None name [] ["*"] [] VNone VNone))
  \/ (exists pre rest,
        name = (pre ++ String "." rest)%string
        /\ contains "." pre = false
        /\ Table.__init__ name =
             Ok (Table.mk (Some pre) rest [] ["*"] [] VNone VNone)).
Proof.
  destruct (contains "." name) eqn:E.
  - right. destruct (first_separator _ _ E) as (pre & rest & -> & Hp).
    exists pre, rest. repeat split; try assumption.
    unfold Table.__init__.
    rewrite contains_app_sep, (split1_first _ _ _ Hp). reflexivity.
  - left. split; [reflexivity|]. unfold Table.__init__. now rewrite E.
Qed.

Lemma init_filters (name : string) (t : Table.t) :
  Table.__init__ name = Ok t ->
  Table._filters t = [] /\ Table._order_by t = [].
Proof.
  destruct (init_cases name) as [(_ & H)|(pre & rest & _ & _ & H)];
    rewrite H; intros E; inversion E; subst; auto.
Qed.

Lemma conditions_of_Forall (filters : list Table.filter_entry) :
  Forall (fun f => exists c, Table.condition f = Ok c) filters ->
  exists cs, mapM Table.condition filters = Ok cs.
Proof.
  induction 1 as [|f rest (c & Hc) _ (cs & Hcs)]; [now exists []|].
  cbn [mapM]. rewrite Hc, Hcs. eexists; reflexivity.
Qed.

Lemma public_step_keeps_conditions (c : Chain.call) (self self' : Table.t) :
  Shape.public c = true ->
  Chain.step c self = Ok self' ->
  Forall (fun f => exists c, Table.condition f = Ok c)
         (Table._filters self) ->
  Forall (fun f => exists c, Table.condition f = Ok c)
         (Table._filters self').
Proof.
  intros Hp Hs Hall.
  destruct c; try discriminate Hp; cbn [Chain.step] in Hs;
    try (inversion Hs; subst self'; cbn [Table._filters Table.select
           Table.order Table.limit Table.offset]; exact Hall);
    try (inversion Hs; subst self'; apply Forall_app; split;
         [exact Hall|]; constructor; [|constructor];
         first [ destruct v; eexists; reflexivity
               | destruct pattern; eexists; reflexivity
               | eexists; reflexivity ]).
  - unfold Table.in_, tuple in Hs.
    destruct (iter vs) as [items|e]; [|discriminate].
    inversion Hs; subst self'. apply Forall_app. split; [exact Hall|].
    constructor; [|constructor]. eexists; reflexivity.
  - unfold Table.not_in, tuple in Hs.
    destruct (iter vs) as [items|e]; [|discriminate].
    inversion Hs; subst self'. apply Forall_app. split; [exact Hall|].
    constructor; [|constructor]. eexists; reflexivity.
Qed.

Lemma public_run_keeps_conditions (calls : list Chain.call)
    (self : Table.t) :
  forallb Shape.public calls = true ->
  Forall (fun f => exists c, Table.condition f = Ok c)
         (Table._filters self) ->
  Forall (fun f => exists c, Table.condition f = Ok c)
         (Table._filters (fst (Chain.run calls self))).
Proof.
  revert self. induction calls as [|c calls IH]; intros self Hp Hall;
    [exact Hall|].
  cbn [forallb] in Hp. apply andb_true_iff in Hp as [Hc Hp].
  cbn [Chain.run]. destruct (Chain.step c self) as [self'|e] eqn:E.
  - apply IH; [assumption|].
    exact (public_step_keeps_conditions _ _ _ Hc E Hall).
  - exact Hall.
Qed.

Lemma execute_statement_ok (self : Table.t) (w : Composable)
    (ps : list value) :
  Table._build_where_clause self = Ok w ->
  Table._get_filter_values self = Ok ps ->
  exists relation ordering,
    Table._get_table_identifier self = Ok relation
    /\ Table._build_order_by_clause self = Ok ordering
    /\ Table.execute_statement self =
         Ok (join " "
               [Composed
                  [SQL "SELECT ";
                   (if list_eq_dec string_dec (Table._select_columns self)
                         ["*"]
                    then SQL "*"
                    else join ", "
                           (map Identifier (Table._select_columns self)));
                   SQL " FROM"];
                relation; w; ordering;
                Table._build_limit_clause self;
                Table._build_offset_clause self],
             (if negb (is_None (Table._offset self))
              then (if negb (is_None (Table._limit self))
                    then ps ++ [Table._limit self] else ps)
                   ++ [Table._offset self]
              else (if negb (is_None (Table._limit self))
                    then ps ++ [Table._limit self] else ps))).
Proof.
  intros Hw Hps.
  destruct (table_identifier_text self) as (relation & Hrel & _).
  destruct (order_by_clause_text self) as (ordering & Hord & _).
  exists relation, ordering. do 2 (split; [assumption|]).
  unfold Table.execute_statement.
  change (format "SELECT {} FROM" [?c]) with
    (Ok (Composed [SQL "SELECT "; c; SQL " FROM"])).
  cbn [Py.bind]. rewrite Hrel, Hw, Hord, Hps. reflexivity.
Qed.

Lemma where_and_values_of_conditions (self : Table.t)
    (cs : list Composable) :
  mapM Table.condition (Table._filters self) = Ok cs ->
  exists w ps,
    Table._build_where_clause self = Ok w
    /\ Table._get_filter_values self = Ok ps
    /\ placeholders w = List.length ps.
Proof.
  intros Hcs. destruct (conditions_values _ _ Hcs) as (ps & Hps & Hn).
  unfold Table._build_where_clause, Table._get_filter_values.
  destruct (Table._filters self) as [|f rest].
  - exists (SQL EmptyString), ps. simpl in Hps. inversion Hps. auto.
  - cbn [truthy_list negb]. rewrite Hcs.
    exists (Composed [SQL " WHERE "; join " AND " cs]), ps.
    split; [reflexivity|]. split; [assumption|].
    now rewrite where_clause_placeholders.
Qed.

Lemma sequence_operands_conditions (filters : list Table.filter_entry) :
  forallb (fun f : Table.filter_entry =>
             negb (Table.in_operator (snd (fst f)))
             || Shape.sequence (snd f)) filters = true ->
  Forall (fun f => exists c, Table.condition f = Ok c) filters.
Proof.
  induction filters as [|[[column operator] v] rest IH]; [constructor|].
  cbn [forallb fst snd]. intros H. apply andb_true_iff in H as [Hf H].
  constructor; [|exact (IH H)].
  unfold Table.condition.
  destruct (Table.in_operator operator).
  - cbn [negb orb] in Hf. destruct v; try discriminate Hf;
      eexists; reflexivity.
  - destruct (is_None v && Table.is_operator operator); eexists;
      reflexivity.
Qed.

(** X1. For every builder whose IN and NOT IN entries all hold a tuple,
    a list or a string as operand (what [in_] and [not_in] store is a
    tuple), building the WHERE clause and collecting the filter values
    both succeed, and the clause holds exactly as many [Placeholder]
    objects as the list holds values. *)
Theorem where_clause_and_values_agree (self : Table.t) :
  Shape.sequence_operands self = true ->
  exists w ps,
    Table._build_where_clause self = Ok w
    /\ Table._get_filter_values self = Ok ps
    /\ placeholders w = List.length ps.
Proof.
  intros H. apply sequence_operands_conditions in H.
  destruct (conditions_of_Forall _ H) as (cs & Hcs).
  exact (where_and_values_of_conditions _ _ Hcs).
Qed.

Lemma where_clause_and_values_agree_witness :
  exists w ps,
    Table._build_where_clause
      (Table.mk None "users"
         [("a", "~", VNone); ("b", "in", VList [VInt 2; VInt 3]);
          ("c", "NOT IN", VStr "xy"); ("d", "IS", VNone)]
         ["*"] [] VNone VNone) = Ok w
    /\ Table._get_filter_values
         (Table.mk None "users"
            [("a", "~", VNone); ("b", "in", VList [VInt 2; VInt 3]);
             ("c", "NOT IN", VStr "xy"); ("d", "IS", VNone)]
            ["*"] [] VNone VNone) = Ok ps
    /\ placeholders w = List.length ps.
Proof.
  apply where_clause_and_values_agree. reflexivity.
Defined.

(** X2. A builder obtained from [Table(conn, name)] through any chain of
    public builder methods always compiles: the WHERE clause and the
    filter values are built without error, with as many placeholders as
    values, and so is the SELECT statement, even when the chain was cut
    short by a call that raised. *)
Theorem public_chains_always_compile
    (name : string) (calls : list Chain.call) (t : Table.t) :
  Table.__init__ name = Ok t ->
  forallb Shape.public calls = true ->
  exists w ps query params,
    Table._build_where_clause (fst (Chain.run calls t)) = Ok w
    /\ Table._get_filter_values (fst (Chain.run calls t)) = Ok ps
    /\ placeholders w = List.length ps
    /\ Table.execute_statement (fst (Chain.run calls t)) =
         Ok (query, params).
Proof.
  intros Hi Hp. destruct (init_filters _ _ Hi) as (Hf & _).
  assert (Hall : Forall (fun f => exists c, Table.condition f = Ok c)
                        (Table._filters (fst (Chain.run calls t)))).
  { apply public_run_keeps_conditions; [assumption|]. rewrite Hf.
    constructor. }
  destruct (conditions_of_Forall _ Hall) as (cs & Hcs).
  set (self := fst (Chain.run calls t)) in *.
  destruct (where_and_values_of_conditions self cs Hcs)
    as (w & ps & Hw & Hps & Hn).
  destruct (execute_statement_ok _ _ _ Hw Hps)
    as (relation & ordering & _ & _ & He).
  exists w, ps. do 2 eexists. repeat split; eassumption.
Qed.

Lemma public_chains_always_compile_witness :
  exists w ps query params,
    Table._build_where_clause
      (fst (Chain.run [Chain.eq "a" VNone; Chain.in_ "b" (VStr "xy");
                       Chain.is_not_null "c"; Chain.not_in "d" (VInt 5);
                       Chain.limit (VInt 3)]
                      (Table.mk (Some "app") "users" [] ["*"] [] VNone
                                VNone))) = Ok w
    /\ Table._get_filter_values
         (fst (Chain.run [Chain.eq "a" VNone; Chain.in_ "b" (VStr "xy");
                          Chain.is_not_null "c"; Chain.not_in "d" (VInt 5);
                          Chain.limit (VInt 3)]
                         (Table.mk (Some "app") "users" [] ["*"] [] VNone
                                   VNone))) = Ok ps
    /\ placeholders w = List.length ps
    /\ Table.execute_statement
         (fst (Chain.run [Chain.eq "a" VNone; Chain.in_ "b" (VStr "xy");
                          Chain.is_not_null "c"; Chain.not_in "d" (VInt 5);
                          Chain.limit (VInt 3)]
                         (Table.mk (Some "app") "users" [] ["*"] [] VNone
                                   VNone))) = Ok (query, params).
Proof.
  apply (public_chains_always_compile "app.users"); reflexivity.
Defined.

(** ** Entries with a comparison operator *)

(** X3. In a ledger whose other entries compile, an entry whose operator
    is neither IN nor NOT IN, and that is not IS or IS NOT with [None],
    is rendered [quote(column) operator %s] with one placeholder, and its
    operand is the one value it adds to the parameters, at its position:
    [None] under a comparison operator and a non-null operand under IS are
    bound as parameters. *)
Theorem comparison_entry_binds_its_operand
    (self : Table.t) (before after : list Table.filter_entry)
    (column operator : string) (v : value)
    (cs_before cs_after : list Composable) :
  Table._filters self = before ++ (column, operator, v) :: after ->
  mapM Table.condition before = Ok cs_before ->
  mapM Table.condition after = Ok cs_after ->
  Table.in_operator operator = false ->
  is_None v && Table.is_operator operator = false ->
  exists ps_before ps_after,
    Table.filter_values_loop before [] = Ok ps_before
    /\ Table.filter_values_loop after [] = Ok ps_after
    /\ Table._build_where_clause self =
         Ok (Composed
               [SQL " WHERE ";
                join " AND "
                  (cs_before
                     ++ Composed [Identifier column; SQL " "; SQL operator;
                                  SQL " "; Placeholder] :: cs_after)])
    /\ as_string
         (Composed [Identifier column; SQL " "; SQL operator; SQL " ";
                    Placeholder]) =
         (quote_ident column ++ " " ++ operator ++ " %s")%string
    /\ Table._get_filter_values self = Ok (ps_before ++ v :: ps_after).
Proof.
  intros Hf Hb Ha Hin Hnull.
  destruct (conditions_values _ _ Hb) as (pb & Hpb & _).
  destruct (conditions_values _ _ Ha) as (pa & Hpa & _).
  exists pb, pa. do 2 (split; [assumption|]).
  assert (Hc : Table.condition (column, operator, v) =
               Ok (Composed [Identifier column; SQL " "; SQL operator;
                             SQL " "; Placeholder])).
  { unfold Table.condition. rewrite Hin, Hnull. reflexivity. }
  split; [exact (where_clause_of_conditions _ _ _ _ _ _ _ Hf Hb Hc Ha)|].
  split.
  { rewrite as_string_Composed. cbn [map fold_right as_string].
    reflexivity. }
  unfold Table._get_filter_values. rewrite Hf.
  apply filter_values_loop_app; [assumption|].
  apply (filter_values_loop_cons _ _ [v]); [|assumption].
  unfold Table.entry_values. rewrite Hin.
  apply andb_false_iff in Hnull as [H|H]; rewrite H; simpl;
    rewrite ?orb_true_r; reflexivity.
Qed.

Lemma comparison_entry_binds_its_operand_witness :
  Table._get_filter_values
    (Table.mk None "users"
       [("a", "=", VNone); ("b", "IS", VInt 1); ("c", "IS", VNone)]
       ["*"] [] VNone VNone) = Ok [VNone; VInt 1]
  /\ Table._build_where_clause
       (Table.mk None "users"
          [("a", "=", VNone); ("b", "IS", VInt 1); ("c", "IS", VNone)]
          ["*"] [] VNone VNone) =
       Ok (Composed
             [SQL " WHERE ";
              join " AND "
                [Composed [Identifier "a"; SQL " "; SQL "="; SQL " ";
                           Placeholder];
                 Composed [Identifier "b"; SQL " "; SQL "IS"; SQL " ";
                           Placeholder];
                 Composed [Identifier "c"; SQL " "; SQL "IS";
                           SQL " NULL"]]]).
Proof.
  destruct (comparison_entry_binds_its_operand
              (Table.mk None "users"
                 [("a", "=", VNone); ("b", "IS", VInt 1); ("c", "IS", VNone)]
                 ["*"] [] VNone VNone)
              [("a", "=", VNone)] [("c", "IS", VNone)] "b" "IS" (VInt 1)
              _ _ eq_refl eq_refl eq_refl eq_refl eq_refl)
    as (pb & pa & Hb & Ha & Hw & _ & Hv).
  inversion Hb; inversion Ha; subst pb pa.
  split; [exact Hv | exact Hw].
Defined.

(** ** An operand that cannot be sized *)

Lemma condition_raises_in_list (filters : list Table.filter_entry)
    (f : Table.filter_entry) :
  In f filters -> Table.condition f = Raise TypeError ->
  mapM Table.condition filters = Raise TypeError.
Proof.
  intros Hin Hf.
  destruct (conditions_cases filters) as [(cs & Hcs)|(H & _)];
    [|assumption].
  exfalso. revert cs Hcs. induction filters as [|g rest IH]; intros cs Hcs;
    [contradiction|].
  cbn [mapM] in Hcs. apply bind_Ok in Hcs as (c & Hg & Hcs).
  apply bind_Ok in Hcs as (cs' & Hrest & _).
  destruct Hin as [->|Hin]; [congruence | eauto].
Qed.

(** X4. When some filter entry has operator IN or NOT IN and an operand
    that has no length, [execute], [update] and [delete] raise
    [TypeError] while building the WHERE clause, and no statement reaches
    the driver. *)
Theorem unsized_operand_fails_before_the_driver
    (drv : Db.driver) (self : Table.t) (data : dict)
    (log : list Db.statement) (column operator : string) (v : value) :
  In (column, operator, v) (Table._filters self) ->
  Table.in_operator operator = true ->
  len v = Raise TypeError ->
  Table._build_where_clause self = Raise TypeError
  /\ Table.execute drv self log = (Raise TypeError, log)
  /\ Table.update drv self data log = (Raise TypeError, log)
  /\ Table.delete drv self log = (Raise TypeError, log).
Proof.
  intros Hin Hop Hlen.
  assert (Hc : Table.condition (column, operator, v) = Raise TypeError)
    by (unfold Table.condition; now rewrite Hop, Hlen).
  assert (Hw : Table._build_where_clause self = Raise TypeError).
  { unfold Table._build_where_clause.
    destruct (Table._filters self) as [|f rest] eqn:E; [contradiction|].
    cbn [truthy_list negb].
    now rewrite (condition_raises_in_list _ _ Hin Hc). }
  destruct (relation_ok self) as (relation & Hrel).
  destruct (order_by_clause_text self) as (ordering & Hord & _).
  split; [assumption|]. split; [|split].
  - unfold Table.execute, Db.bind, Db.lift, Table.execute_statement.
    change (format "SELECT {} FROM" [?c]) with
      (Ok (Composed [SQL "SELECT "; c; SQL " FROM"])).
    cbn [Py.bind]. now rewrite Hrel, Hw.
  - unfold Table.update. apply statement_raises.
    unfold Table.update_statement. rewrite set_items_ok. cbn [Py.bind].
    now rewrite Hrel, Hw.
  - unfold Table.delete. apply statement_raises.
    unfold Table.delete_statement. now rewrite Hrel, Hw.
Qed.

Lemma unsized_operand_fails_before_the_driver_witness :
  Table._build_where_clause
    (Table._add_filter Sample.users "id" "in" (VInt 7)) = Raise TypeError
  /\ Table.execute (Sample.answers [])
       (Table._add_filter Sample.users "id" "in" (VInt 7)) [] =
       (Raise TypeError, [])
  /\ Table.update (Sample.answers [])
       (Table._add_filter Sample.users "id" "in" (VInt 7))
       [("a", VInt 1)] [] = (Raise TypeError, [])
  /\ Table.delete (Sample.answers [])
       (Table._add_filter Sample.users "id" "in" (VInt 7)) [] =
       (Raise TypeError, []).
Proof.
  apply (unsized_operand_fails_before_the_driver
           (Sample.answers [])
           (Table._add_filter Sample.users "id" "in" (VInt 7))
           [("a", VInt 1)] [] "id" "in" (VInt 7));
    [left; reflexivity | reflexivity | reflexivity].
Defined.

(** ** What reaches the driver, and what comes back *)

(** X5. Once its statement is built, [execute] hands exactly that
    statement to the driver and reports the outcome: the rows returned, a
    [TimeoutError] for a cancelled statement, and any other driver error
    unchanged. *)
Theorem execute_reports_the_driver_outcome
    (drv : Db.driver) (self : Table.t) (query : Composable)
    (params : list value) (log : list Db.statement) :
  Table.execute_statement self = Ok (query, params) ->
  snd (Table.execute drv self log) = log ++ [(as_string query, params)]
  /\ (forall rows,
        drv log (as_string query, params) = inr rows ->
        fst (Table.execute drv self log) = Ok rows)
  /\ (drv log (as_string query, params) = inl QueryCanceled ->
      fst (Table.execute drv self log) = Raise TimeoutError)
  /\ (forall sqlstate,
        drv log (as_string query, params) = inl (OtherDriverError sqlstate) ->
        fst (Table.execute drv self log) =
          Raise (Driver (OtherDriverError sqlstate))).
Proof.
  intros E. unfold Table.execute, Db.bind, Db.lift,
    Db.except_QueryCanceled, Db.cursor_execute.
  rewrite E. cbn [fst snd].
  destruct (drv log (as_string query, params)) as [[|sqlstate]|rows];
    repeat split; intros; try discriminate; cbn [fst];
    congruence.
Qed.

Lemma execute_reports_the_driver_outcome_witness :
  snd (Table.execute (Sample.answers [[("id", VInt 1)]]) Sample.paged []) =
    [(("SELECT " ++ quote_ident "id" ++ " FROM " ++ quote_ident "app"
         ++ "." ++ quote_ident "users" ++ "   ORDER BY " ++ quote_ident "id"
         ++ " DESC  LIMIT %s  OFFSET %s")%string,
      [VInt 10; VInt 5])]
  /\ fst (Table.execute (Sample.answers [[("id", VInt 1)]]) Sample.paged
            []) = Ok [[("id", VInt 1)]].
Proof.
  destruct (execute_reports_the_driver_outcome
              (Sample.answers [[("id", VInt 1)]]) Sample.paged _ _ []
              eq_refl) as (Hs & Hr & _).
  split; [exact Hs | exact (Hr _ eq_refl)].
Defined.

Lemma one_statement_or_none (drv : Db.driver)
    (build : result (Composable * list value)) (log : list Db.statement) :
  (exists e,
     Db.bind (Db.lift build)
             (fun st => Db.cursor_execute drv (fst st) (snd st)) log =
       (Raise e, log))
  \/ (exists st,
        snd (Db.bind (Db.lift build)
                     (fun st => Db.cursor_execute drv (fst st) (snd st))
                     log) = log ++ [st]).
Proof.
  destruct build as [[query params]|e].
  - right. eexists. reflexivity.
  - left. exists e. reflexivity.
Qed.

(** X6. Every terminal operation either raises while building its
    statement, leaving the connection untouched, or executes exactly one
    statement after those already executed; none executes two, and none
    rewrites what was executed before. *)
Theorem terminal_operations_execute_at_most_once
    (drv : Db.driver) (self : Table.t) (data : Table.payload)
    (conflict_columns : list string) (mapping : dict)
    (procedure : string) (params : option dict)
    (log : list Db.statement) :
  ((exists e, Table.execute drv self log = (Raise e, log))
   \/ exists st, snd (Table.execute drv self log) = log ++ [st])
  /\ ((exists e, Table.insert drv self data log = (Raise e, log))
      \/ exists st, snd (Table.insert drv self data log) = log ++ [st])
  /\ ((exists e,
         Table.upsert drv self data conflict_columns log = (Raise e, log))
      \/ exists st,
           snd (Table.upsert drv self data conflict_columns log) =
             log ++ [st])
  /\ ((exists e, Table.update drv self mapping log = (Raise e, log))
      \/ exists st, snd (Table.update drv self mapping log) = log ++ [st])
  /\ ((exists e, Table.delete drv self log = (Raise e, log))
      \/ exists st, snd (Table.delete drv self log) = log ++ [st])
  /\ exists st, snd (RPC.call drv procedure params log) = log ++ [st].
Proof.
  split; [|repeat split; try apply one_statement_or_none].
  - unfold Table.execute, Db.bind, Db.lift, Db.except_QueryCanceled,
      Db.cursor_execute.
    destruct (Table.execute_statement self) as [[query ps]|e].
    + right. exists (as_string query, ps). cbn [fst snd].
      destruct (drv log (as_string query, ps)) as [[|sqlstate]|rows];
        reflexivity.
    + left. exists e. reflexivity.
  - destruct (call_statement_ok procedure params) as (query & ps & E).
    unfold RPC.call, Db.bind, Db.lift, Db.cursor_execute. rewrite E.
    exists (as_string query, ps). cbn [fst snd].
    destruct (drv log (as_string query, ps)) as [e|rows]; reflexivity.
Qed.

(** ** INSERT *)

Lemma identifiers_no_placeholder (names : list string) :
  list_sum (map placeholders (map Identifier names)) = 0.
Proof. induction names as [|k l IH]; [reflexivity | exact IH]. Qed.

Lemma relation_no_placeholder (self : Table.t) (relation : Composable) :
  Table._get_table_identifier self = Ok relation ->
  placeholders relation = 0.
Proof.
  unfold Table._get_table_identifier.
  destruct (Table.schema self) as [[|a s]|]; intros H; inversion H;
    reflexivity.
Qed.

(** X7. For a payload that compiles, INSERT is rendered
    [INSERT INTO relation (columns) VALUES %s, ..., %s RETURNING *] with
    the first row's keys as quoted columns and one placeholder per row;
    the parameters are one tuple per row, so placeholders and parameters
    agree in number. *)
Theorem insert_binds_one_tuple_per_row
    (self : Table.t) (data : Table.payload) (first : dict)
    (others : list dict) (values : list (list value)) :
  Table.as_rows data = first :: others ->
  Table.row_values (keys first) (first :: others) = Ok values ->
  exists relation query,
    Table._get_table_identifier self = Ok relation
    /\ Table.insert_statement self data = Ok (query, map VTuple values)
    /\ placeholders query = S (List.length others)
    /\ List.length (map VTuple values) = S (List.length others)
    /\ as_string query =
         ("INSERT INTO " ++ as_string relation ++ " ("
            ++ String.concat ", " (map quote_ident (keys first))
            ++ ") VALUES "
            ++ String.concat ", " (repeat "%s" (S (List.length others)))
            ++ " RETURNING *")%string.
Proof.
  intros Hd Hv. destruct (relation_ok self) as (relation & Hrel).
  exists relation.
  exists (Composed
            [SQL "INSERT INTO "; relation; SQL " (";
             join ", " (map Identifier (keys first)); SQL ") VALUES ";
             join ", " (mul Placeholder (List.length (first :: others)));
             SQL " RETURNING *"]).
  split; [assumption|]. split; [|split; [|split]].
  - unfold Table.insert_statement. rewrite Hd.
    cbn [Table.first_keys Py.bind]. rewrite Hv, Hrel. reflexivity.
  - set (n := List.length (first :: others)).
    cbn [placeholders map]. rewrite !placeholders_join, placeholders_repeat.
    rewrite identifiers_no_placeholder,
      (relation_no_placeholder _ _ Hrel).
    subst n. simpl. lia.
  - rewrite length_map. unfold Table.row_values in Hv.
    now rewrite (mapM_length _ _ _ Hv).
  - rewrite as_string_Composed.
    set (cols := map Identifier (keys first)).
    set (phs := mul Placeholder (List.length (first :: others))).
    cbn [map fold_right]. subst cols phs.
    rewrite !as_string_join, map_map, as_string_repeat, append_empty_r.
    reflexivity.
Qed.

Lemma insert_binds_one_tuple_per_row_witness :
  exists relation query,
    Table._get_table_identifier Sample.users = Ok relation
    /\ Table.insert_statement Sample.users
         (Table.Rows [[("a", VInt 1); ("b", VInt 2)];
                      [("b", VInt 4); ("a", VInt 3)]]) =
         Ok (query, [VTuple [VInt 1; VInt 2]; VTuple [VInt 3; VInt 4]])
    /\ placeholders query = 2
    /\ as_string query =
         ("INSERT INTO " ++ as_string relation ++ " ("
            ++ (quote_ident "a" ++ ", " ++ quote_ident "b")
            ++ ") VALUES %s, %s RETURNING *")%string.
Proof.
  destruct (insert_binds_one_tuple_per_row Sample.users
              (Table.Rows [[("a", VInt 1); ("b", VInt 2)];
                           [("b", VInt 4); ("a", VInt 3)]])
              [("a", VInt 1); ("b", VInt 2)] [[("b", VInt 4); ("a", VInt 3)]]
              [[VInt 1; VInt 2]; [VInt 3; VInt 4]] eq_refl eq_refl)
    as (relation & query & Hrel & Hq & Hp & _ & Ht).
  exists relation, query. repeat split; assumption.
Defined.

Lemma mapM_ext_in {A B} (f g : A -> result B) (l : list A) :
  (forall x, In x l -> f x = g x) -> mapM f l = mapM g l.
Proof.
  induction l as [|x l IH]; intros H; [reflexivity|].
  cbn [mapM]. rewrite (H x (or_introl eq_refl)), IH; [reflexivity|].
  intros y Hy. apply H. now right.
Qed.

(** Looking up the keys of a dictionary, in order, gives its values. *)
Lemma own_keys_give_values (d : dict) :
  wf_dict d -> mapM (fun col => getitem d col) (keys d) = Ok (values d).
Proof.
  unfold wf_dict. induction d as [|[k v] d IH]; intros Hnd;
    [reflexivity|].
  cbn [keys values map fst snd] in *. cbn [mapM getitem].
  rewrite String.eqb_refl. cbn [Py.bind].
  inversion Hnd as [|? ? Hnotin Hnd']; subst.
  rewrite (mapM_ext_in _ (fun col => getitem d col)).
  - unfold keys in IH. rewrite (IH Hnd'). reflexivity.
  - intros x Hx. cbn [getitem].
    destruct (String.eqb k x) eqn:E; [|reflexivity].
    apply String.eqb_eq in E. subst x. contradiction.
Qed.

(** X8. An INSERT given a single mapping never fails to compile,
    whatever the mapping holds, the empty mapping included: its columns
    are the mapping's keys and its one parameter is the tuple of the
    mapping's values, in key order. *)
Theorem insert_of_one_mapping_always_compiles
    (self : Table.t) (row : dict) :
  wf_dict row ->
  exists relation,
    Table._get_table_identifier self = Ok relation
    /\ Table.insert_statement self (Table.Row row) =
         Ok (Composed
               [SQL "INSERT INTO "; relation; SQL " (";
                join ", " (map Identifier (keys row)); SQL ") VALUES ";
                join ", " [Placeholder]; SQL " RETURNING *"],
             [VTuple (values row)]).
Proof.
  intros Hwf. destruct (relation_ok self) as (relation & Hrel).
  exists relation. split; [assumption|].
  unfold Table.insert_statement, Table.row_values.
  cbn [Table.as_rows Table.first_keys Py.bind mapM].
  rewrite (own_keys_give_values _ Hwf), Hrel. reflexivity.
Qed.

Lemma insert_of_one_mapping_always_compiles_witness :
  exists relation,
    Table._get_table_identifier Sample.paged = Ok relation
    /\ Table.insert_statement Sample.paged (Table.Row []) =
         Ok (Composed
               [SQL "INSERT INTO "; relation; SQL " ("; join ", " [];
                SQL ") VALUES "; join ", " [Placeholder];
                SQL " RETURNING *"],
             [VTuple []]).
Proof.
  apply (insert_of_one_mapping_always_compiles Sample.paged []).
  constructor.
Defined.

(** ** UPDATE and DELETE *)

Lemma where_values_count (self : Table.t) (w : Composable)
    (ps : list value) :
  Table._build_where_clause self = Ok w ->
  Table._get_filter_values self = Ok ps ->
  placeholders w = List.length ps.
Proof.
  intros Hw Hps. pose proof (where_clause_shape _ _ Hw) as S.
  unfold Table._get_filter_values in Hps.
  destruct (Table._filters self) as [|f rest].
  - subst w. simpl in Hps. now inversion Hps.
  - destruct S as (cs & Hcs & ->).
    destruct (conditions_values _ _ Hcs) as (ps' & Hps' & Hn).
    rewrite where_clause_placeholders. congruence.
Qed.

Lemma set_items_placeholders (names : list string) :
  list_sum
    (map placeholders
       (map (fun k => Composed [Identifier k; SQL " = "; Placeholder])
            names)) = List.length names.
Proof.
  induction names as [|k names IH]; [reflexivity|].
  cbn [map list_sum fold_right List.length] in *.
  unfold list_sum in IH. rewrite IH. reflexivity.
Qed.

(** X9. When the filters compile, UPDATE is rendered
    [UPDATE relation SET key = %s, ...  where RETURNING *] with the
    mapping's keys in order; its parameters are the mapping's values
    followed by the WHERE parameters, and there are as many placeholders
    as parameters. *)
Theorem update_binds_set_values_then_filter_values
    (self : Table.t) (data : dict) (w : Composable) (ps : list value) :
  Table._build_where_clause self = Ok w ->
  Table._get_filter_values self = Ok ps ->
  exists relation query,
    Table._get_table_identifier self = Ok relation
    /\ Table.update_statement self data = Ok (query, values data ++ ps)
    /\ placeholders query = List.length (values data ++ ps)
    /\ as_string query =
         ("UPDATE " ++ as_string relation ++ " SET "
            ++ String.concat ", "
                 (map (fun k => quote_ident k ++ " = %s") (keys data))
            ++ " " ++ as_string w ++ " RETURNING *")%string.
Proof.
  intros Hw Hps. destruct (relation_ok self) as (relation & Hrel).
  exists relation.
  exists (Composed
            [SQL "UPDATE "; relation; SQL " SET ";
             join ", "
               (map (fun k => Composed [Identifier k; SQL " = "; Placeholder])
                    (keys data));
             SQL " "; w; SQL " RETURNING *"]).
  split; [assumption|]. split; [|split].
  - unfold Table.update_statement. rewrite set_items_ok. cbn [Py.bind].
    rewrite Hrel, Hw, Hps. reflexivity.
  - set (items := map _ (keys data)).
    cbn [placeholders map]. rewrite placeholders_join.
    rewrite (relation_no_placeholder _ _ Hrel),
      (where_values_count _ _ _ Hw Hps).
    subst items. rewrite set_items_placeholders, length_app.
    unfold keys, values. rewrite !length_map. simpl. lia.
  - rewrite as_string_Composed.
    set (items := map _ (keys data)).
    cbn [map fold_right]. subst items.
    rewrite as_string_join, map_map, append_empty_r.
    reflexivity.
Qed.

Lemma update_binds_set_values_then_filter_values_witness :
  exists relation query,
    Table._get_table_identifier Sample.filtered = Ok relation
    /\ Table.update_statement Sample.filtered
         [("x", VInt 7); ("y", VNone)] =
         Ok (query, [VInt 7; VNone; VInt 1; VInt 2; VInt 3])
    /\ placeholders query = 5.
Proof.
  destruct (update_binds_set_values_then_filter_values Sample.filtered
              [("x", VInt 7); ("y", VNone)] _ _ eq_refl eq_refl)
    as (relation & query & Hrel & Hq & Hp & _).
  exists relation, query. repeat split; assumption.
Defined.

(** X10. When the filters compile, DELETE is rendered
    [DELETE FROM relation where RETURNING *] and its parameters are the
    WHERE parameters, as many as its placeholders; with no filter the
    statement has no WHERE clause and no parameter, so that it addresses
    every row. *)
Theorem delete_binds_filter_values_only
    (self : Table.t) (w : Composable) (ps : list value) :
  Table._build_where_clause self = Ok w ->
  Table._get_filter_values self = Ok ps ->
  exists relation query,
    Table._get_table_identifier self = Ok relation
    /\ Table.delete_statement self = Ok (query, ps)
    /\ placeholders query = List.length ps
    /\ as_string query =
         ("DELETE FROM " ++ as_string relation ++ " " ++ as_string w
            ++ " RETURNING *")%string
    /\ (Table._filters self = [] ->
        ps = []
        /\ as_string query =
             ("DELETE FROM " ++ as_string relation
                ++ "  RETURNING *")%string).
Proof.
  intros Hw Hps. destruct (relation_ok self) as (relation & Hrel).
  exists relation.
  exists (Composed [SQL "DELETE FROM "; relation; SQL " "; w;
                    SQL " RETURNING *"]).
  split; [assumption|]. split; [|split; [|split]].
  - unfold Table.delete_statement. rewrite Hrel, Hw, Hps. reflexivity.
  - cbn [placeholders map].
    rewrite (relation_no_placeholder _ _ Hrel),
      (where_values_count _ _ _ Hw Hps). simpl. lia.
  - rewrite as_string_Composed. reflexivity.
  - intros Hf. unfold Table._build_where_clause, Table._get_filter_values
      in Hw, Hps. rewrite Hf in Hw, Hps. simpl in Hw, Hps.
    inversion Hw; inversion Hps; subst. split; [reflexivity|].
    rewrite as_string_Composed. reflexivity.
Qed.

Lemma delete_binds_filter_values_only_witness :
  exists relation query,
    Table._get_table_identifier Sample.users = Ok relation
    /\ Table.delete_statement Sample.users = Ok (query, [])
    /\ as_string query =
         ("DELETE FROM " ++ as_string relation ++ "  RETURNING *")%string.
Proof.
  destruct (delete_binds_filter_values_only Sample.users _ _
              eq_refl eq_refl)
    as (relation & query & Hrel & Hq & _ & _ & Hf).
  exists relation, query. repeat split; try assumption.
  exact (proj2 (Hf eq_refl)).
Defined.

(** ** UPSERT: the ends of the update set *)

Lemma update_columns_all_conflict (columns conflict_columns : list string) :
  (forall col, In col columns -> In col conflict_columns) ->
  Table.update_columns columns conflict_columns = [].
Proof.
  intros H. unfold Table.update_columns.
  induction columns as [|c columns IH]; [reflexivity|].
  cbn [filter].
  assert (E : existsb (String.eqb c) conflict_columns = true).
  { apply existsb_exists. exists c. split; [apply H; now left|].
    apply String.eqb_refl. }
  rewrite E. cbn [negb]. apply IH. intros col Hc. apply H. now right.
Qed.

Lemma update_columns_no_conflict (columns : list string) :
  Table.update_columns columns [] = columns.
Proof.
  unfold Table.update_columns.
  induction columns as [|c l IH]; [reflexivity|].
  simpl in *. now rewrite IH.
Qed.

(** X11. When every payload column is a conflict column, the UPSERT
    still compiles and its update set is empty: the statement reads
    [... DO UPDATE SET  RETURNING *] with nothing assigned.  When there is
    no conflict column, every payload column is assigned. *)
Theorem upsert_update_set_extremes
    (self : Table.t) (data : Table.payload) (conflict_columns : list string)
    (first : dict) (others : list dict) (values : list (list value)) :
  Table.as_rows data = first :: others ->
  Table.row_values (keys first) (first :: others) = Ok values ->
  (forall col, In col (keys first) -> In col conflict_columns) ->
  Table.update_columns (keys first) [] = keys first
  /\ exists relation query,
       Table._get_table_identifier self = Ok relation
       /\ Table.upsert_statement self data conflict_columns =
            Ok (query, map VTuple values)
       /\ as_string query =
            ("INSERT INTO " ++ as_string relation ++ " ("
               ++ String.concat ", " (map quote_ident (keys first))
               ++ ") VALUES "
               ++ String.concat ", " (repeat "%s" (S (List.length others)))
               ++ " ON CONFLICT ("
               ++ String.concat ", " (map quote_ident conflict_columns)
               ++ ") DO UPDATE SET  RETURNING *")%string.
Proof.
  intros Hd Hv Hall. split.
  { apply update_columns_no_conflict. }
  destruct (relation_ok self) as (relation & Hrel).
  exists relation.
  exists (Composed
            [SQL "INSERT INTO "; relation; SQL " (";
             join ", " (map Identifier (keys first)); SQL ") VALUES ";
             join ", " (mul Placeholder (List.length (first :: others)));
             SQL " ON CONFLICT (";
             join ", " (map Identifier conflict_columns);
             SQL ") DO UPDATE SET "; join ", " []; SQL " RETURNING *"]).
  split; [assumption|]. split.
  - unfold Table.upsert_statement. rewrite Hd.
    cbn [Table.first_keys Py.bind].
    rewrite Hv, Hrel, (update_columns_all_conflict _ _ Hall). reflexivity.
  - rewrite as_string_Composed.
    set (cols := map Identifier (keys first)).
    set (phs := mul Placeholder (List.length (first :: others))).
    set (conf := map Identifier conflict_columns).
    cbn [map fold_right]. subst cols phs conf.
    rewrite !as_string_join, !map_map, as_string_repeat.
    reflexivity.
Qed.

Lemma upsert_update_set_extremes_witness :
  exists relation query,
    Table._get_table_identifier Sample.users = Ok relation
    /\ Table.upsert_statement Sample.users
         (Table.Row [("id", VInt 1)]) ["id"; "tenant"] =
         Ok (query, [VTuple [VInt 1]])
    /\ as_string query =
         ("INSERT INTO " ++ as_string relation ++ " (" ++ quote_ident "id"
            ++ ") VALUES %s ON CONFLICT ("
            ++ (quote_ident "id" ++ ", " ++ quote_ident "tenant")
            ++ ") DO UPDATE SET  RETURNING *")%string.
Proof.
  destruct (upsert_update_set_extremes Sample.users
              (Table.Row [("id", VInt 1)]) ["id"; "tenant"]
              [("id", VInt 1)] [] [[VInt 1]] eq_refl eq_refl)
    as (_ & relation & query & Hrel & Hq & Ht).
  - intros col [<-|[]]. now left.
  - exists relation, query. repeat split; assumption.
Defined.

(** ** Stored procedures: statement and result *)

Lemma call_arguments_placeholders (names : list string) :
  list_sum
    (map placeholders
       (map (fun k => Composed [Identifier k; SQL ":="; Placeholder])
            names)) = List.length names.
Proof.
  induction names as [|k names IH]; [reflexivity|].
  cbn [map list_sum fold_right List.length] in *.
  unfold list_sum in IH. rewrite IH. reflexivity.
Qed.

(** X12. A procedure call always compiles, to
    [SELECT proc(name := %s, ...)] with one named argument per key of the
    mapping, in the mapping's order; its parameters are the mapping's
    values, as many as its placeholders.  No mapping and an empty mapping
    give the same statement, [SELECT proc()]. *)
Theorem call_statement_names_its_arguments
    (procedure : string) (given : dict) :
  exists query,
    RPC.call_statement procedure (Some given) = Ok (query, values given)
    /\ placeholders query = List.length (values given)
    /\ as_string query =
         ("SELECT " ++ quote_ident procedure ++ "("
            ++ String.concat ", "
                 (map (fun k => quote_ident k ++ ":=%s") (keys given))
            ++ ")")%string
    /\ RPC.call_statement procedure None =
         RPC.call_statement procedure (Some [])
    /\ RPC.call_statement procedure None =
         Ok (Composed [SQL "SELECT "; Identifier procedure; SQL "(";
                       Composed []; SQL ")"], []).
Proof.
  exists (Composed
            [SQL "SELECT "; Identifier procedure; SQL "(";
             join ", "
               (map (fun k => Composed [Identifier k; SQL ":="; Placeholder])
                    (keys given));
             SQL ")"]).
  split; [|split; [|split; [|split]]]; try reflexivity.
  - unfold RPC.call_statement.
    destruct given as [|kv given]; [reflexivity|].
    cbn [truthy_list]. rewrite call_arguments_ok. reflexivity.
  - set (args := map _ (keys given)).
    cbn [placeholders map]. rewrite placeholders_join. subst args.
    rewrite call_arguments_placeholders. unfold keys, values.
    rewrite !length_map. simpl. lia.
  - rewrite as_string_Composed.
    set (args := map _ (keys given)).
    cbn [map fold_right]. subst args.
    rewrite as_string_join, map_map. reflexivity.
Qed.

(** X13. The value of a procedure call is read from the first row the
    driver returns, under the procedure's name: further rows are ignored,
    a first row without that column raises [KeyError], and a driver error
    is passed on unchanged. *)
Theorem call_unwraps_the_first_row
    (drv : Db.driver) (procedure : string) (params : option dict)
    (log : list Db.statement) (query : Composable) (ps : list value) :
  RPC.call_statement procedure params = Ok (query, ps) ->
  snd (RPC.call drv procedure params log) = log ++ [(as_string query, ps)]
  /\ (forall row more v,
        drv log (as_string query, ps) = inr (row :: more) ->
        getitem row procedure = Ok v ->
        fst (RPC.call drv procedure params log) = Ok v)
  /\ (forall kv row more,
        drv log (as_string query, ps) = inr ((kv :: row) :: more) ->
        getitem (kv :: row) procedure = Raise (KeyError procedure) ->
        fst (RPC.call drv procedure params log) =
          Raise (KeyError procedure))
  /\ (forall e,
        drv log (as_string query, ps) = inl e ->
        fst (RPC.call drv procedure params log) = Raise (Driver e)).
Proof.
  intros E. unfold RPC.call, Db.bind, Db.lift, Db.cursor_execute.
  rewrite E. cbn [fst snd]. split; [|split; [|split]].
  - destruct (drv log (as_string query, ps)); reflexivity.
  - intros row more v -> Hv. cbn [RPC.fetchone RPC.unwrap fst].
    destruct row as [|kv row]; [discriminate Hv|]. exact Hv.
  - intros kv row more -> Hk. exact Hk.
  - intros e ->. reflexivity.
Qed.

Lemma call_unwraps_the_first_row_witness :
  fst (RPC.call
         (Sample.answers [[("n", VInt 0); ("f", VInt 42)]; [("f", VInt 7)]])
         "f" (Some [("x", VInt 1)]) []) = Ok (VInt 42)
  /\ fst (RPC.call (Sample.answers [[("g", VInt 42)]]) "f" None []) =
       Raise (KeyError "f").
Proof.
  split.
  - destruct (call_unwraps_the_first_row
                (Sample.answers
                   [[("n", VInt 0); ("f", VInt 42)]; [("f", VInt 7)]])
                "f" (Some [("x", VInt 1)]) [] _ _ eq_refl)
      as (_ & H & _).
    exact (H _ _ _ eq_refl eq_refl).
  - destruct (call_unwraps_the_first_row
                (Sample.answers [[("g", VInt 42)]]) "f" None [] _ _ eq_refl)
      as (_ & _ & H & _).
    exact (H _ _ _ eq_refl eq_refl).
Defined.

(** ** Construction and the relation reference *)

(** X14. Constructing a builder never raises.  The new builder has no
    filter, no ordering, no limit, no offset and projects every column;
    its schema holds no separator, and joining schema and relation name
    with the separator gives back the name it was built from. *)
Theorem init_never_raises_and_keeps_the_name (name : string) :
  exists t,
    Table.__init__ name = Ok t
    /\ Table._filters t = [] /\ Table._order_by t = []
    /\ Table._select_columns t = ["*"]
    /\ Table._limit t = VNone /\ Table._offset t = VNone
    /\ match Table.schema t with
       | Some s =>
           name = (s ++ String "." (Table.table_name t))%string
           /\ contains "." s = false
       | None => name = Table.table_name t /\ contains "." name = false
       end.
Proof.
  destruct (init_cases name) as [(Hn & H)|(pre & rest & Hname & Hp & H)];
    eexists; (split; [exact H|]); cbn; repeat split; auto.
Qed.

Lemma run_keeps_relation (calls : list Chain.call) (self : Table.t) :
  Table.schema (fst (Chain.run calls self)) = Table.schema self
  /\ Table.table_name (fst (Chain.run calls self)) = Table.table_name self.
Proof.
  revert self. induction calls as [|c calls IH]; intros self; [auto|].
  cbn [Chain.run]. pose proof (step_effect c self) as E.
  destruct (Chain.step c self) as [self'|e]; [|auto].
  destruct E as (Hs & Hn & _). destruct (IH self') as (Hs' & Hn').
  split; congruence.
Qed.

(** X15. The relation reference is fixed by the name given at
    construction and no chain of calls changes it: a name without
    separator is one quoted identifier; a name [pre.rest] is
    [quote(pre).quote(rest)]; and a name that starts with the separator
    has an empty schema and is referenced by [rest] alone. *)
Theorem relation_reference_is_fixed_by_the_name
    (pre rest : string) (calls : list Chain.call) :
  contains "." pre = false ->
  exists plain qualified,
    Table.__init__ pre = Ok plain
    /\ Table.__init__ (pre ++ String "." rest) = Ok qualified
    /\ Table._get_table_identifier (fst (Chain.run calls plain)) =
         Ok (Identifier pre)
    /\ Table._get_table_identifier (fst (Chain.run calls qualified)) =
         Ok (match pre with
             | EmptyString => Identifier rest
             | _ => Composed [Identifier pre; SQL "."; Identifier rest]
             end)
    /\ as_string (Composed [Identifier pre; SQL "."; Identifier rest]) =
         (quote_ident pre ++ "." ++ quote_ident rest)%string.
Proof.
  intros Hp.
  exists (Table.mk None pre [] ["*"] [] VNone VNone),
         (Table.mk (Some pre) rest [] ["*"] [] VNone VNone).
  split; [unfold Table.__init__; now rewrite Hp|].
  split; [unfold Table.__init__;
          now rewrite contains_app_sep, (split1_first _ _ _ Hp)|].
  split; [|split].
  - unfold Table._get_table_identifier.
    destruct (run_keeps_relation calls
                (Table.mk None pre [] ["*"] [] VNone VNone)) as (-> & ->).
    reflexivity.
  - unfold Table._get_table_identifier.
    destruct (run_keeps_relation calls
                (Table.mk (Some pre) rest [] ["*"] [] VNone VNone))
      as (-> & ->).
    destruct pre; reflexivity.
  - rewrite as_string_Composed. cbn [map fold_right as_string].
    now rewrite append_empty_r.
Qed.

Lemma relation_reference_is_fixed_by_the_name_witness :
  exists t,
    Table.__init__ ".users" = Ok t
    /\ Table._get_table_identifier
         (fst (Chain.run [Chain.eq "a" (VInt 1); Chain.limit (VInt 2)] t)) =
         Ok (Identifier "users").
Proof.
  destruct (relation_reference_is_fixed_by_the_name EmptyString "users"
              [Chain.eq "a" (VInt 1); Chain.limit (VInt 2)] eq_refl)
    as (plain & qualified & _ & Hq & _ & Hid & _).
  exists qualified. split; [exact Hq | exact Hid].
Defined.

(** ** Ordering *)

Lemma step_keeps_directions (c : Chain.call) (self self' : Table.t) :
  Chain.step c self = Ok self' ->
  Forall (fun cd : string * string => snd cd = "ASC" \/ snd cd = "DESC")
         (Table._order_by self) ->
  Forall (fun cd : string * string => snd cd = "ASC" \/ snd cd = "DESC")
         (Table._order_by self').
Proof.
  intros H Hall. pose proof (step_effect c self) as E. rewrite H in E.
  destruct E as (_ & _ & E).
  destruct c;
    try (destruct E as (_ & Ho & _); rewrite Ho; exact Hall);
    try (destruct E as (_ & _ & Ho & _); rewrite Ho; exact Hall).
  destruct E as (Ho & _). rewrite Ho. apply Forall_app. split; [exact Hall|].
  constructor; [|constructor]. destruct ascending; simpl; auto.
Qed.

(** X16. Whatever chain of calls is applied to a new builder, every
    direction stored in its ordering is ASC or DESC. *)
Theorem ordering_directions_are_ASC_or_DESC
    (name : string) (calls : list Chain.call) (t : Table.t) :
  Table.__init__ name = Ok t ->
  Forall (fun cd : string * string => snd cd = "ASC" \/ snd cd = "DESC")
         (Table._order_by (fst (Chain.run calls t))).
Proof.
  intros Hi. destruct (init_filters _ _ Hi) as (_ & Ho).
  assert (Hall : Forall (fun cd : string * string =>
                           snd cd = "ASC" \/ snd cd = "DESC")
                        (Table._order_by t)) by (rewrite Ho; constructor).
  clear Hi Ho. revert t Hall.
  induction calls as [|c calls IH]; intros t Hall; [exact Hall|].
  cbn [Chain.run]. destruct (Chain.step c t) as [t'|e] eqn:E;
    [|exact Hall].
  apply IH. exact (step_keeps_directions _ _ _ E Hall).
Qed.

Lemma ordering_directions_are_ASC_or_DESC_witness :
  Forall (fun cd : string * string => snd cd = "ASC" \/ snd cd = "DESC")
         (Table._order_by
            (fst (Chain.run [Chain.order "a" true; Chain.select ["a"];
                             Chain.order "b" false]
                            (Table.mk None "users" [] ["*"] [] VNone
                                      VNone)))).
Proof.
  apply (ordering_directions_are_ASC_or_DESC "users"). reflexivity.
Defined.

Lemma order_terms_no_placeholder (terms : list (string * string)) :
  list_sum
    (map placeholders
       (map (fun cd : string * string =>
               Composed [Identifier (fst cd); SQL " "; SQL (snd cd)])
            terms)) = 0.
Proof. induction terms as [|cd l IH]; [reflexivity | exact IH]. Qed.

(** X17. The ORDER BY clause always compiles and holds no placeholder.
    It is empty when nothing was ordered; otherwise it lists
    [quote(column) direction], comma-joined, in the order of the [order]
    calls. *)
Theorem order_by_clause_keeps_call_order (self : Table.t) :
  exists ordering,
    Table._build_order_by_clause self = Ok ordering
    /\ placeholders ordering = 0
    /\ as_string ordering =
         match Table._order_by self with
         | [] => EmptyString
         | terms =>
             (" ORDER BY "
                ++ String.concat ", "
                     (map (fun cd : string * string =>
                             quote_ident (fst cd) ++ " " ++ snd cd) terms))%string
         end
    /\ forall column ascending,
         Table._order_by (Table.order self column ascending) =
           Table._order_by self
             ++ [(column, if ascending then "ASC" else "DESC")].
Proof.
  destruct (order_by_clause_text self) as (ordering & H & T).
  exists ordering. split; [assumption|]. split; [|split].
  - unfold Table._build_order_by_clause in H.
    destruct (Table._order_by self) as [|cd l].
    + inversion H. reflexivity.
    + cbn [truthy_list negb] in H. rewrite order_terms_ok in H.
      remember (map (fun cd0 : string * string =>
                       Composed [Identifier (fst cd0); SQL " ";
                                 SQL (snd cd0)]) (cd :: l)) as terms
        eqn:Hterms.
      assert (H' : Ok (Composed [SQL " ORDER BY "; join ", " terms]) =
                   Ok ordering) by exact H.
      injection H' as <-. cbn [placeholders map].
      rewrite placeholders_join, Hterms, order_terms_no_placeholder.
      reflexivity.
  - exact T.
  - reflexivity.
Qed.

(** ** Independent calls *)

(** X18. Two successive calls that write different attributes of the
    builder (projection, filters, ordering, limit, offset) can be swapped:
    when the two succeed in one order they succeed in the other and leave
    the same builder. *)
Theorem calls_on_different_attributes_commute
    (c1 c2 : Chain.call) (self s1 s12 : Table.t) :
  Shape.attribute_eqb (Shape.writes c1) (Shape.writes c2) = false ->
  Chain.step c1 self = Ok s1 ->
  Chain.step c2 s1 = Ok s12 ->
  exists s2, Chain.step c2 self = Ok s2 /\ Chain.step c1 s2 = Ok s12.
Proof.
  intros Ha H1 H2.
  destruct c1; destruct c2; try discriminate Ha;
    cbn [Chain.step] in *; unfold Table.in_, Table.not_in, tuple in *;
    repeat match goal with
           | H : context [iter ?v] |- _ =>
               destruct (iter v); cbn [Py.bind] in *; try discriminate
           end;
    injection H1 as <-; injection H2 as <-;
    eexists; split; reflexivity.
Qed.

Lemma calls_on_different_attributes_commute_witness :
  exists s2,
    Chain.step (Chain.limit (VInt 3)) Sample.users = Ok s2
    /\ Chain.step (Chain.in_ "a" (VList [VInt 1])) s2 =
         Ok (Table.mk None "users" [("a", "IN", VTuple [VInt 1])] ["*"] []
                      (VInt 3) VNone).
Proof.
  apply (calls_on_different_attributes_commute
           (Chain.in_ "a" (VList [VInt 1])) (Chain.limit (VInt 3))
           Sample.users
           (Table.mk None "users" [("a", "IN", VTuple [VInt 1])] ["*"] []
                     VNone VNone));
    reflexivity.
Defined.

(** ** Percent signs in the text and parameters *)

Lemma count_app (c : ascii) (a b : string) :
  Shape.count c (a ++ b) = Shape.count c a + Shape.count c b.
Proof.
  induction a as [|x a IH]; simpl; [reflexivity | rewrite IH; lia].
Qed.

Lemma count_escape (c : ascii) (s : string) :
  Ascii.eqb dquote c = false ->
  Shape.count c (escape s) = Shape.count c s.
Proof.
  intros Hc. induction s as [|x s IH]; [reflexivity|].
  cbn [escape]. destruct (Ascii.eqb x dquote) eqn:E.
  - apply Ascii.eqb_eq in E. subst x. cbn [Shape.count].
    rewrite Hc, IH. reflexivity.
  - cbn [Shape.count]. now rewrite IH.
Qed.

Lemma count_quote_ident (s : string) :
  Shape.count "%" (quote_ident s) = Shape.count "%" s.
Proof.
  unfold quote_ident. cbn [Shape.count].
  rewrite count_app, count_escape by reflexivity. simpl. lia.
Qed.

Lemma count_fold_append (c : ascii) (l : list string) :
  Shape.count c (fold_right append EmptyString l) =
    list_sum (map (Shape.count c) l).
Proof.
  induction l as [|x l IH]; [reflexivity|].
  cbn [fold_right map list_sum]. rewrite count_app, IH. reflexivity.
Qed.

(** Induction over compositions, with the hypothesis on every element of
    a [Composed]. *)
Lemma Composable_rect_seq (P : Composable -> Prop) :
  (forall text, P (SQL text)) ->
  (forall name, P (Identifier name)) ->
  P Placeholder ->
  (forall seq, Forall P seq -> P (Composed seq)) ->
  forall c, P c.
Proof.
  intros Hs Hi Hp Hc.
  fix IH 1. intros [text|name| |seq]; [apply Hs | apply Hi | apply Hp |].
  apply Hc. induction seq as [|c seq IHseq]; constructor;
    [apply IH | exact IHseq].
Qed.

(** Every percent sign of a rendered composition comes from a
    placeholder, from literal text or from an identifier. *)
Lemma percent_as_string (c : Composable) :
  Shape.count "%" (as_string c) = placeholders c + Shape.literal_percents c.
Proof.
  induction c as [text|name| |seq IH] using Composable_rect_seq;
    try reflexivity.
  - cbn [as_string placeholders Shape.literal_percents].
    apply count_quote_ident.
  - rewrite as_string_Composed, count_fold_append.
    cbn [placeholders Shape.literal_percents].
    induction IH as [|c seq Hc _ IHseq]; [reflexivity|].
    cbn [map list_sum fold_right] in *. unfold list_sum in IHseq.
    rewrite Hc, IHseq. lia.
Qed.

Lemma literal_percents_join (joiner : string) (l : list Composable) :
  Shape.count "%" joiner = 0 ->
  Shape.literal_percents (join joiner l) =
    list_sum (map Shape.literal_percents l).
Proof.
  intros Hj. destruct l as [|x l]; [reflexivity|].
  cbn [join Shape.literal_percents map list_sum fold_right]. f_equal.
  induction l as [|y l IH]; [reflexivity|].
  cbn [flat_map app map fold_right Shape.literal_percents].
  rewrite Hj. unfold list_sum in IH. rewrite IH. reflexivity.
Qed.

Lemma no_percent_count (s : string) :
  Shape.no_percent s = true -> Shape.count "%" s = 0.
Proof. unfold Shape.no_percent. apply Nat.eqb_eq. Qed.

Lemma identifiers_no_percent (names : list string) :
  forallb Shape.no_percent names = true ->
  list_sum (map Shape.literal_percents (map Identifier names)) = 0.
Proof.
  induction names as [|k names IH]; [reflexivity|].
  cbn [forallb]. intros H. apply andb_true_iff in H as [Hk H].
  cbn [map list_sum fold_right Shape.literal_percents].
  rewrite (no_percent_count _ Hk). exact (IH H).
Qed.

Lemma placeholders_no_percent (n : nat) :
  list_sum (map Shape.literal_percents (mul Placeholder n)) = 0.
Proof. unfold mul. induction n as [|n IH]; [reflexivity | exact IH]. Qed.

Lemma condition_no_percent (column operator : string) (v : value)
    (c : Composable) :
  Table.condition (column, operator, v) = Ok c ->
  Shape.no_percent column = true ->
  Shape.no_percent operator = true ->
  Shape.literal_percents c = 0.
Proof.
  intros H Hc Ho. apply no_percent_count in Hc, Ho.
  unfold Table.condition in H.
  destruct (Table.in_operator operator).
  - destruct (len v) as [n|e]; [|discriminate].
    assert (H' : Ok (Composed
                       [Identifier column; SQL " "; SQL operator; SQL " (";
                        join ", " (mul Placeholder n); SQL ")"]) = Ok c)
      by exact H.
    injection H' as <-.
    remember (mul Placeholder n) as phs eqn:Hphs.
    cbn [Shape.literal_percents map].
    rewrite literal_percents_join by reflexivity.
    rewrite Hphs, placeholders_no_percent, Hc, Ho. reflexivity.
  - destruct (is_None v && Table.is_operator operator);
      injection H as <-; cbn [Shape.literal_percents map];
      rewrite Hc, Ho; reflexivity.
Qed.

Lemma conditions_no_percent (filters : list Table.filter_entry)
    (cs : list Composable) :
  forallb (fun f : Table.filter_entry =>
             Shape.no_percent (fst (fst f)) && Shape.no_percent (snd (fst f)))
          filters = true ->
  mapM Table.condition filters = Ok cs ->
  list_sum (map Shape.literal_percents cs) = 0.
Proof.
  revert cs. induction filters as [|[[column operator] v] rest IH];
    intros cs Hall H.
  - inversion H. reflexivity.
  - cbn [forallb fst snd] in Hall.
    apply andb_true_iff in Hall as [Hf Hall].
    apply andb_true_iff in Hf as [Hc Ho].
    cbn [mapM] in H. apply bind_Ok in H as (c & Hcond & H).
    apply bind_Ok in H as (cs' & Hrest & H). injection H as <-.
    cbn [map list_sum fold_right].
    rewrite (condition_no_percent _ _ _ _ Hcond Hc Ho).
    exact (IH cs' Hall Hrest).
Qed.

Lemma order_terms_no_percent (terms : list (string * string)) :
  forallb (fun cd : string * string =>
             Shape.no_percent (fst cd) && Shape.no_percent (snd cd))
          terms = true ->
  list_sum
    (map Shape.literal_percents
       (map (fun cd : string * string =>
               Composed [Identifier (fst cd); SQL " "; SQL (snd cd)])
            terms)) = 0.
Proof.
  induction terms as [|cd terms IH]; [reflexivity|].
  cbn [forallb]. intros H. apply andb_true_iff in H as [Hcd H].
  apply andb_true_iff in Hcd as [Hc Hd].
  cbn [map list_sum fold_right Shape.literal_percents].
  rewrite (no_percent_count _ Hc), (no_percent_count _ Hd).
  exact (IH H).
Qed.

(** With names free of percent signs, the relation, the WHERE clause and
    the ORDER BY clause carry no percent sign of their own. *)
Lemma clauses_no_percent (self : Table.t) (relation w ordering : Composable) :
  Shape.percent_free self = true ->
  Table._get_table_identifier self = Ok relation ->
  Table._build_where_clause self = Ok w ->
  Table._build_order_by_clause self = Ok ordering ->
  Shape.literal_percents relation = 0
  /\ Shape.literal_percents w = 0
  /\ Shape.literal_percents ordering = 0.
Proof.
  unfold Shape.percent_free. intros H Hrel Hw Hord.
  apply andb_true_iff in H as [H Ho].
  apply andb_true_iff in H as [H Hf].
  apply andb_true_iff in H as [H _].
  apply andb_true_iff in H as [Hn Hs].
  apply no_percent_count in Hn.
  split; [|split].
  - unfold Table._get_table_identifier in Hrel.
    destruct (Table.schema self) as [[|a s]|];
      injection Hrel as <-; cbn [Shape.literal_percents map];
      rewrite ?Hn, ?(no_percent_count _ Hs); reflexivity.
  - pose proof (where_clause_shape _ _ Hw) as S.
    destruct (Table._filters self) as [|f rest]; [now subst w|].
    destruct S as (cs & Hcs & ->).
    remember (f :: rest) as filters.
    cbn [Shape.literal_percents map].
    rewrite literal_percents_join by reflexivity.
    rewrite (conditions_no_percent _ _ Hf Hcs). reflexivity.
  - unfold Table._build_order_by_clause in Hord.
    destruct (Table._order_by self) as [|cd l]; [now inversion Hord|].
    cbn [truthy_list negb] in Hord. rewrite order_terms_ok in Hord.
    remember (map (fun cd0 : string * string =>
                     Composed [Identifier (fst cd0); SQL " ";
                               SQL (snd cd0)]) (cd :: l)) as terms
      eqn:Hterms.
    assert (H' : Ok (Composed [SQL " ORDER BY "; join ", " terms]) =
                 Ok ordering) by exact Hord.
    injection H' as <-. cbn [Shape.literal_percents map].
    rewrite literal_percents_join by reflexivity.
    rewrite Hterms, (order_terms_no_percent _ Ho). reflexivity.
Qed.

Lemma where_ok_values_ok (self : Table.t) (w : Composable) :
  Table._build_where_clause self = Ok w ->
  exists ps, Table._get_filter_values self = Ok ps
             /\ placeholders w = List.length ps.
Proof.
  intros Hw. pose proof (where_clause_shape _ _ Hw) as S.
  destruct (Table._filters self) as [|f rest] eqn:E.
  - subst w. exists []. unfold Table._get_filter_values. rewrite E. auto.
  - destruct S as (cs & Hcs & _). rewrite <- E in Hcs.
    destruct (where_and_values_of_conditions _ _ Hcs)
      as (w' & ps & Hw' & Hps & Hn).
    exists ps. split; [assumption|]. congruence.
Qed.

Lemma ordering_no_placeholder (self : Table.t) (ordering : Composable) :
  Table._build_order_by_clause self = Ok ordering ->
  placeholders ordering = 0.
Proof.
  unfold Table._build_order_by_clause. intros H.
  destruct (Table._order_by self) as [|cd l]; [now inversion H|].
  cbn [truthy_list negb] in H. rewrite order_terms_ok in H.
  remember (map (fun cd0 : string * string =>
                   Composed [Identifier (fst cd0); SQL " ";
                             SQL (snd cd0)]) (cd :: l)) as terms
    eqn:Hterms.
  assert (H' : Ok (Composed [SQL " ORDER BY "; join ", " terms]) =
               Ok ordering) by exact H.
  injection H' as <-. cbn [placeholders map].
  rewrite placeholders_join, Hterms, order_terms_no_placeholder.
  reflexivity.
Qed.

Lemma projection_no_percent (self : Table.t) :
  Shape.percent_free self = true ->
  placeholders
    (if list_eq_dec string_dec (Table._select_columns self) ["*"]
     then SQL "*"
     else join ", " (map Identifier (Table._select_columns self))) = 0
  /\ Shape.literal_percents
       (if list_eq_dec string_dec (Table._select_columns self) ["*"]
        then SQL "*"
        else join ", " (map Identifier (Table._select_columns self))) = 0.
Proof.
  unfold Shape.percent_free. intros H.
  apply andb_true_iff in H as [H _].
  apply andb_true_iff in H as [H _].
  apply andb_true_iff in H as [_ Hc].
  destruct (list_eq_dec string_dec (Table._select_columns self) ["*"]);
    [split; reflexivity|].
  rewrite placeholders_join, identifiers_no_placeholder.
  rewrite literal_percents_join by reflexivity.
  now rewrite (identifiers_no_percent _ Hc).
Qed.

Lemma set_items_no_percent (names : list string) :
  forallb Shape.no_percent names = true ->
  list_sum
    (map Shape.literal_percents
       (map (fun k => Composed [Identifier k; SQL " = "; Placeholder])
            names)) = 0.
Proof.
  induction names as [|k names IH]; [reflexivity|].
  cbn [forallb]. intros H. apply andb_true_iff in H as [Hk H].
  cbn [map list_sum fold_right Shape.literal_percents].
  rewrite (no_percent_count _ Hk). exact (IH H).
Qed.

(** X19. When no name of the builder holds a percent sign and the
    filters compile, the text of the SELECT, of the DELETE and (for keys
    without percent sign) of the UPDATE statement holds exactly as many
    percent signs as the statement has parameters: every [%s] of the
    text, those written literally after LIMIT and OFFSET included, is
    matched by one parameter. *)
Theorem percent_signs_match_parameters
    (self : Table.t) (w : Composable) (data : dict) :
  Shape.percent_free self = true ->
  Table._build_where_clause self = Ok w ->
  (exists query params,
     Table.execute_statement self = Ok (query, params)
     /\ Shape.count "%" (as_string query) = List.length params)
  /\ (exists query params,
        Table.delete_statement self = Ok (query, params)
        /\ Shape.count "%" (as_string query) = List.length params)
  /\ (forallb Shape.no_percent (keys data) = true ->
      exists query params,
        Table.update_statement self data = Ok (query, params)
        /\ Shape.count "%" (as_string query) = List.length params).
Proof.
  intros Hfree Hw.
  destruct (where_ok_values_ok _ _ Hw) as (ps & Hps & Hn).
  destruct (execute_statement_ok _ _ _ Hw Hps)
    as (relation & ordering & Hrel & Hord & He).
  destruct (clauses_no_percent _ _ _ _ Hfree Hrel Hw Hord)
    as (Lrel & Lw & Lord).
  destruct (projection_no_percent _ Hfree) as (Psel & Lsel).
  pose proof (relation_no_placeholder _ _ Hrel) as Prel.
  pose proof (ordering_no_placeholder _ _ Hord) as Pord.
  split; [|split].
  - do 2 eexists. split; [exact He|].
    rewrite percent_as_string, placeholders_join.
    rewrite literal_percents_join by reflexivity.
    cbn [map list_sum fold_right placeholders Shape.literal_percents].
    unfold list_sum. cbn [fold_right].
    rewrite Psel, Lsel, Prel, Lrel, Pord, Lord, Lw, Hn.
    unfold Table._build_limit_clause, Table._build_offset_clause.
    destruct (is_None (Table._limit self)),
      (is_None (Table._offset self));
      cbn [negb placeholders Shape.literal_percents];
      rewrite ?length_app; simpl; lia.
  - exists (Composed [SQL "DELETE FROM "; relation; SQL " "; w;
                      SQL " RETURNING *"]), ps.
    split.
    + unfold Table.delete_statement. rewrite Hrel, Hw, Hps. reflexivity.
    + rewrite percent_as_string.
      cbn [map list_sum fold_right placeholders Shape.literal_percents].
      rewrite Prel, Lrel, Lw, Hn. simpl. lia.
  - intros Hk.
    exists (Composed
              [SQL "UPDATE "; relation; SQL " SET ";
               join ", "
                 (map (fun k => Composed [Identifier k; SQL " = ";
                                          Placeholder]) (keys data));
               SQL " "; w; SQL " RETURNING *"]), (values data ++ ps).
    split.
    + unfold Table.update_statement. rewrite set_items_ok. cbn [Py.bind].
      rewrite Hrel, Hw, Hps. reflexivity.
    + rewrite percent_as_string.
      remember (map (fun k => Composed [Identifier k; SQL " = ";
                                        Placeholder]) (keys data))
        as items eqn:Hitems.
      cbn [map list_sum fold_right placeholders Shape.literal_percents].
      rewrite placeholders_join.
      rewrite literal_percents_join by reflexivity.
      rewrite Hitems, set_items_placeholders, (set_items_no_percent _ Hk).
      rewrite Prel, Lrel, Lw, Hn, length_app.
      unfold keys, values. rewrite !length_map. simpl. lia.
Qed.

Lemma percent_signs_match_parameters_witness :
  (exists query params,
     Table.execute_statement
       (Table.mk (Some "app") "users"
          [("a", ">=", VInt 1); ("b", "NOT IN", VTuple [VInt 2; VInt 3])]
          ["id"; "a"] [("id", "DESC")] (VInt 10) (VInt 5)) =
       Ok (query, params)
     /\ Shape.count "%" (as_string query) = List.length params)
  /\ exists query params,
       Table.update_statement
         (Table.mk (Some "app") "users"
            [("a", ">=", VInt 1); ("b", "NOT IN", VTuple [VInt 2; VInt 3])]
            ["id"; "a"] [("id", "DESC")] (VInt 10) (VInt 5))
         [("x", VInt 7)] = Ok (query, params)
       /\ Shape.count "%" (as_string query) = List.length params.
Proof.
  destruct (percent_signs_match_parameters
              (Table.mk (Some "app") "users"
                 [("a", ">=", VInt 1);
                  ("b", "NOT IN", VTuple [VInt 2; VInt 3])]
                 ["id"; "a"] [("id", "DESC")] (VInt 10) (VInt 5))
              _ [("x", VInt 7)] eq_refl eq_refl)
    as (Hs & _ & Hu).
  split; [exact Hs | exact (Hu eq_refl)].
Defined.

Lemma excluded_items_measure (cols : list string) :
  forallb Shape.no_percent cols = true ->
  list_sum
    (map placeholders
       (map (fun col =>
               Composed [Identifier col; SQL " = EXCLUDED."; Identifier col])
            cols)) = 0
  /\ list_sum
       (map Shape.literal_percents
          (map (fun col =>
                  Composed [Identifier col; SQL " = EXCLUDED.";
                            Identifier col])
               cols)) = 0.
Proof.
  induction cols as [|c cols IH]; [split; reflexivity|].
  cbn [forallb]. intros H. apply andb_true_iff in H as [Hc H].
  destruct (IH H) as (IHp & IHl).
  cbn [map list_sum fold_right placeholders Shape.literal_percents].
  rewrite (no_percent_count _ Hc). split; [exact IHp | exact IHl].
Qed.

Lemma update_columns_no_percent (columns conflict_columns : list string) :
  forallb Shape.no_percent columns = true ->
  forallb Shape.no_percent
          (Table.update_columns columns conflict_columns) = true.
Proof.
  unfold Table.update_columns.
  induction columns as [|c columns IH]; [reflexivity|].
  cbn [forallb filter]. intros H. apply andb_true_iff in H as [Hc H].
  destruct (negb (existsb (String.eqb c) conflict_columns));
    [cbn [forallb]; rewrite Hc|]; exact (IH H).
Qed.

Lemma call_arguments_no_percent (names : list string) :
  forallb Shape.no_percent names = true ->
  list_sum
    (map Shape.literal_percents
       (map (fun k => Composed [Identifier k; SQL ":="; Placeholder])
            names)) = 0.
Proof.
  induction names as [|k names IH]; [reflexivity|].
  cbn [forallb]. intros H. apply andb_true_iff in H as [Hk H].
  cbn [map list_sum fold_right Shape.literal_percents].
  rewrite (no_percent_count _ Hk). exact (IH H).
Qed.

Lemma percent_free_relation (self : Table.t) (relation : Composable) :
  Shape.percent_free self = true ->
  Table._get_table_identifier self = Ok relation ->
  Shape.literal_percents relation = 0.
Proof.
  unfold Shape.percent_free. intros H Hrel.
  apply andb_true_iff in H as [H _].
  apply andb_true_iff in H as [H _].
  apply andb_true_iff in H as [H _].
  apply andb_true_iff in H as [Hn Hs].
  apply no_percent_count in Hn.
  unfold Table._get_table_identifier in Hrel.
  destruct (Table.schema self) as [[|a s]|];
    injection Hrel as <-; cbn [Shape.literal_percents map];
    rewrite ?Hn, ?(no_percent_count _ Hs); reflexivity.
Qed.

(** X20. When the relation, the payload columns and the conflict columns
    hold no percent sign, the text of a compiled INSERT or UPSERT holds
    one percent sign per row, which is the number of its parameters; and
    the text of a procedure call whose names hold no percent sign holds
    one per argument. *)
Theorem percent_signs_match_rows_and_arguments
    (self : Table.t) (data : Table.payload) (conflict_columns : list string)
    (first : dict) (others : list dict) (values : list (list value))
    (procedure : string) (given : dict) :
  Table.as_rows data = first :: others ->
  Table.row_values (keys first) (first :: others) = Ok values ->
  Shape.percent_free self = true ->
  forallb Shape.no_percent (keys first) = true ->
  forallb Shape.no_percent conflict_columns = true ->
  Shape.no_percent procedure = true ->
  forallb Shape.no_percent (keys given) = true ->
  (exists query params,
     Table.insert_statement self data = Ok (query, params)
     /\ Shape.count "%" (as_string query) = List.length params
     /\ List.length params = S (List.length others))
  /\ (exists query params,
        Table.upsert_statement self data conflict_columns =
          Ok (query, params)
        /\ Shape.count "%" (as_string query) = List.length params
        /\ List.length params = S (List.length others))
  /\ (exists query params,
        RPC.call_statement procedure (Some given) = Ok (query, params)
        /\ Shape.count "%" (as_string query) = List.length params
        /\ List.length params = List.length given).
Proof.
  intros Hd Hv Hfree Hk Hc Hp Hg.
  destruct (relation_ok self) as (relation & Hrel).
  pose proof (relation_no_placeholder _ _ Hrel) as Prel.
  pose proof (percent_free_relation _ _ Hfree Hrel) as Lrel.
  assert (Hlen : List.length (map VTuple values) = S (List.length others)).
  { rewrite length_map. unfold Table.row_values in Hv.
    now rewrite (mapM_length _ _ _ Hv). }
  destruct (excluded_items_measure _
              (update_columns_no_percent _ conflict_columns Hk))
    as (Pitems & Litems).
  split; [|split].
  - exists (Composed
              [SQL "INSERT INTO "; relation; SQL " (";
               join ", " (map Identifier (keys first)); SQL ") VALUES ";
               join ", " (mul Placeholder (List.length (first :: others)));
               SQL " RETURNING *"]), (map VTuple values).
    split; [|split; [|exact Hlen]].
    + unfold Table.insert_statement. rewrite Hd.
      cbn [Table.first_keys Py.bind]. rewrite Hv, Hrel. reflexivity.
    + rewrite percent_as_string, Hlen.
      remember (List.length (first :: others)) as n eqn:Hn.
      cbn [map list_sum fold_right placeholders Shape.literal_percents].
      rewrite !placeholders_join.
      rewrite !literal_percents_join by reflexivity.
      rewrite identifiers_no_placeholder, (identifiers_no_percent _ Hk),
        placeholders_repeat, placeholders_no_percent, Prel, Lrel.
      subst n. simpl. lia.
  - exists (Composed
              [SQL "INSERT INTO "; relation; SQL " (";
               join ", " (map Identifier (keys first)); SQL ") VALUES ";
               join ", " (mul Placeholder (List.length (first :: others)));
               SQL " ON CONFLICT (";
               join ", " (map Identifier conflict_columns);
               SQL ") DO UPDATE SET ";
               join ", "
                 (map (fun col =>
                         Composed [Identifier col; SQL " = EXCLUDED.";
                                   Identifier col])
                      (Table.update_columns (keys first) conflict_columns));
               SQL " RETURNING *"]), (map VTuple values).
    split; [|split; [|exact Hlen]].
    + unfold Table.upsert_statement. rewrite Hd.
      cbn [Table.first_keys Py.bind].
      rewrite Hv, Hrel, excluded_items_ok. reflexivity.
    + rewrite percent_as_string, Hlen.
      remember (List.length (first :: others)) as n eqn:Hn.
      remember (map (fun col =>
                       Composed [Identifier col; SQL " = EXCLUDED.";
                                 Identifier col])
                    (Table.update_columns (keys first) conflict_columns))
        as items eqn:Hitems.
      cbn [map list_sum fold_right placeholders Shape.literal_percents].
      rewrite !placeholders_join.
      rewrite !literal_percents_join by reflexivity.
      rewrite !identifiers_no_placeholder, (identifiers_no_percent _ Hk),
        (identifiers_no_percent _ Hc), placeholders_repeat,
        placeholders_no_percent, Prel, Lrel, Pitems, Litems.
      subst n. simpl. lia.
  - exists (Composed
              [SQL "SELECT "; Identifier procedure; SQL "(";
               join ", "
                 (map (fun k => Composed [Identifier k; SQL ":=";
                                          Placeholder]) (keys given));
               SQL ")"]), (Py.values given).
    split; [|split].
    + unfold RPC.call_statement.
      destruct given as [|kv given]; [reflexivity|].
      cbn [truthy_list]. rewrite call_arguments_ok. reflexivity.
    + rewrite percent_as_string.
      remember (map (fun k => Composed [Identifier k; SQL ":=";
                                        Placeholder]) (keys given))
        as args eqn:Hargs.
      cbn [map list_sum fold_right placeholders Shape.literal_percents].
      rewrite placeholders_join.
      rewrite literal_percents_join by reflexivity.
      rewrite Hargs, call_arguments_placeholders,
        (call_arguments_no_percent _ Hg), (no_percent_count _ Hp).
      unfold keys, Py.values. rewrite !length_map. simpl. lia.
    + unfold Py.values. now rewrite length_map.
Qed.

Lemma percent_signs_match_rows_and_arguments_witness :
  (exists query params,
     Table.upsert_statement Sample.paged
       (Table.Rows [[("id", VInt 1); ("name", VStr "x")];
                    [("id", VInt 2); ("name", VNone)]]) ["id"] =
       Ok (query, params)
     /\ Shape.count "%" (as_string query) = List.length params
     /\ List.length params = 2)
  /\ exists query params,
       RPC.call_statement "f" (Some [("x", VInt 1); ("y", VInt 2)]) =
         Ok (query, params)
       /\ Shape.count "%" (as_string query) = List.length params
       /\ List.length params = 2.
Proof.
  destruct (percent_signs_match_rows_and_arguments Sample.paged
              (Table.Rows [[("id", VInt 1); ("name", VStr "x")];
                           [("id", VInt 2); ("name", VNone)]]) ["id"]
              [("id", VInt 1); ("name", VStr "x")]
              [[("id", VInt 2); ("name", VNone)]]
              [[VInt 1; VStr "x"]; [VInt 2; VNone]]
              "f" [("x", VInt 1); ("y", VInt 2)]
              eq_refl eq_refl eq_refl eq_refl eq_refl eq_refl eq_refl)
    as (_ & Hu & Hc).
  split; [exact Hu | exact Hc].
Defined.
